(** * doppio: the SPA generator (doppio/commands/spa_generator.py)

    A shallow embedding of [SPAGenerator] and of the pieces of the Python
    standard library it relies on ([str.replace], the [re] pattern used to
    patch hooks.py, [pathlib] and [json] through an interface), followed by
    the properties of the hooks patcher and of the generation pipeline. *)

From Stdlib Require Import Ascii String.
From Stdlib Require Import List NArith Bool Lia Arith.
Import ListNotations.

Open Scope N_scope.
Open Scope list_scope.

(* ===================================================================== *)
(** * Python strings *)
(* ===================================================================== *)

(** A Python [str] is a sequence of Unicode code points. *)
Definition char := N.
Definition text := list char.

(** A string literal of the source, as the sequence of its code points. *)
Definition py (s : string) : text :=
  map N_of_ascii (list_ascii_of_string s).

(** The line feed, written [\n] in the source. *)
Definition nl : char := 10.

(** [lit p s]: [s] starts with the characters [p]; the remainder of [s]. *)
Fixpoint lit (p s : text) : option text :=
  match p, s with
  | [], _ => Some s
  | a :: p', c :: s' => if a =? c then lit p' s' else None
  | _ :: _, [] => None
  end.

(** [occurs p s]: [p] is a substring of [s] (Python's [p in s]). *)
Fixpoint occurs (p s : text) : bool :=
  match lit p s with
  | Some _ => true
  | None => match s with
            | [] => false
            | _ :: s' => occurs p s'
            end
  end.

(** [str.replace(old, new)] for a non-empty [old]: the occurrences of [old]
    are taken from left to right without overlap, and the inserted [new] is
    not scanned again.  The fuel bounds the number of steps; the length of
    the string is always enough ([str_replace_eqn]). *)
Fixpoint replace_fuel (n : nat) (old new s : text) : text :=
  match n with
  | O => s
  | S n' =>
      match lit old s with
      | Some rest => new ++ replace_fuel n' old new rest
      | None => match s with
                | [] => []
                | c :: s' => c :: replace_fuel n' old new s'
                end
      end
  end.

(** With an empty [old], Python puts [new] before every character and at
    the end. *)
Definition str_replace (old new s : text) : text :=
  match old with
  | [] => new ++ flat_map (fun c => c :: new) s
  | _ :: _ => replace_fuel (length s) old new s
  end.

(* ===================================================================== *)
(** * The pattern [website_route_rules\s?=\s?\[(.+)\]] *)
(* ===================================================================== *)

(** [\s] on a [str] pattern: the Unicode white space characters. *)
Definition is_space (c : char) : bool :=
  ((9 <=? c) && (c <=? 13)) || ((28 <=? c) && (c <=? 32))
  || (c =? 133) || (c =? 160) || (c =? 5760)
  || ((8192 <=? c) && (c <=? 8202))
  || (c =? 8232) || (c =? 8233) || (c =? 8239) || (c =? 8287) || (c =? 12288).

(** [.] without DOTALL: any character but the line feed. *)
Definition is_dot (c : char) : bool := negb (c =? nl).

Definition NAME : text := py "website_route_rules".
Definition EQUALS : char := 61.
Definition LBRACKET : char := 91.
Definition RBRACKET : char := 93.

(** [\s?] followed by the rest [k] of the pattern: greedy, so the white
    space character is taken first and given back when [k] then fails. *)
Definition opt_space {A : Type} (k : text -> option A) (s : text) : option A :=
  match s with
  | c :: s' =>
      if is_space c
      then match k s' with
           | Some r => Some r
           | None => k s
           end
      else k s
  | [] => k s
  end.

(** [.*\]]: greedy, the longest run of [.] first, backing off one character
    at a time until a closing bracket follows.  The result is the text the
    dots took and the text after the bracket. *)
Fixpoint dot_star_close (s : text) : option (text * text) :=
  match s with
  | [] => None
  | c :: s' =>
      if is_dot c
      then match dot_star_close s' with
           | Some (g, r) => Some (c :: g, r)
           | None => if c =? RBRACKET then Some ([], s') else None
           end
      else None
  end.

(** [(.+)\]]: one [.], then [.*\]]. *)
Definition dot_plus_close (s : text) : option (text * text) :=
  match s with
  | [] => None
  | c :: s' =>
      if is_dot c
      then match dot_star_close s' with
           | Some (g, r) => Some (c :: g, r)
           | None => None
           end
      else None
  end.

Definition bind_opt {A B : Type} (o : option A) (k : A -> option B) : option B :=
  match o with
  | Some a => k a
  | None => None
  end.

(** A match of the whole pattern at the start of [s]: group 1 and the text
    after the match. *)
Definition match_here (s : text) : option (text * text) :=
  bind_opt (lit NAME s)
    (opt_space (fun s1 =>
       bind_opt (lit [EQUALS] s1)
         (opt_space (fun s2 =>
            bind_opt (lit [LBRACKET] s2) dot_plus_close)))).

(** [pattern.search(s)] used as a condition: is there a match anywhere. *)
Fixpoint re_search (s : text) : bool :=
  match match_here s with
  | Some _ => true
  | None => match s with
            | [] => false
            | _ :: s' => re_search s'
            end
  end.

(** A replacement template: literal text and references to group 1. *)
Inductive tpl_item : Type :=
  | TLit (t : text)
  | TGroup1.

Definition expand (tpl : list tpl_item) (g : text) : text :=
  flat_map (fun i => match i with TLit t => t | TGroup1 => g end) tpl.

(** [pattern.sub(tpl, s)]: every match, leftmost first and without overlap,
    is replaced by the expanded template; the scan resumes after the match
    (the pattern never matches the empty string).  The length of the string
    is enough fuel ([re_sub_eqn]). *)
Fixpoint sub_fuel (n : nat) (tpl : list tpl_item) (s : text) : text :=
  match n with
  | O => s
  | S n' =>
      match match_here s with
      | Some (g, rest) => expand tpl g ++ sub_fuel n' tpl rest
      | None => match s with
                | [] => []
                | c :: s' => c :: sub_fuel n' tpl s'
                end
      end
  end.

Definition re_sub (tpl : list tpl_item) (s : text) : text :=
  sub_fuel (length s) tpl s.

(* ===================================================================== *)
(** * add_routing_rule_to_hooks: the text transformation (lines 149-163) *)
(* ===================================================================== *)

(** The placeholder [{rule}]. *)
Definition PLACEHOLDER : text := py "{rule}".

(** [r"website_route_rules = [{rule}, \1]"] *)
Definition TEMPLATE : list tpl_item :=
  [TLit (py "website_route_rules = [{rule}, "); TGroup1; TLit (py "]")].

(** ["\nwebsite_route_rules = [{rule},]"] *)
Definition FRESH : text := nl :: py "website_route_rules = [{rule},]".

(** [rule]: ["{" + f"'from_route': '/{spa_name}/<path:app_path>',
    'to_route': '{spa_name}'" + "}"]. *)
Definition rule (spa_name : text) : text :=
  py "{"
  ++ (py "'from_route': '/" ++ spa_name
      ++ py "/<path:app_path>', 'to_route': '" ++ spa_name ++ py "'")
  ++ py "}".

(** [rules], after the [if not pattern.search(hooks)]. *)
Definition rules (hooks : text) : text :=
  let rules := re_sub TEMPLATE hooks in
  if negb (re_search hooks) then hooks ++ FRESH else rules.

(** [updates_hooks]: the text written back to hooks.py. *)
Definition updates_hooks (hooks spa_name : text) : text :=
  str_replace PLACEHOLDER (rule spa_name) (rules hooks).

(* ===================================================================== *)
(** * Reading hooks.py back: declarations and records *)
(* ===================================================================== *)

(** The specification speaks of the declarations of the variable in the
    text and of parsing its list literal back into records.  The program
    has neither notion: they are read here on the syntax of the host
    language, for the statements only.

    hooks.py is Python source: a line of it ends at a line feed or at a
    carriage return.  A declaration of the variable is an assignment
    statement at the start of a line: the name, blanks, [=] (not [==]).
    Its value, as far as the line goes, is the text after the blanks that
    follow the [=]. *)
Definition is_blank (c : char) : bool := (c =? 32) || (c =? 9).

Definition is_break (c : char) : bool := (c =? nl) || (c =? 13).

Fixpoint skip_blanks (s : text) : text :=
  match s with
  | [] => []
  | c :: s' => if is_blank c then skip_blanks s' else s
  end.

Fixpoint take_line (s : text) : text :=
  match s with
  | [] => []
  | c :: s' => if is_break c then [] else c :: take_line s'
  end.

Definition starts_with_equals (s : text) : bool :=
  match s with
  | c :: _ => c =? EQUALS
  | [] => false
  end.

Definition decl_head (s : text) : option text :=
  match lit NAME s with
  | Some r =>
      match skip_blanks r with
      | c :: v =>
          if (c =? EQUALS) && negb (starts_with_equals v)
          then Some (take_line (skip_blanks v))
          else None
      | [] => None
      end
  | None => None
  end.

(** The values of the declarations of the variable, in the order of the
    file; [bol] tells whether the scan stands at the beginning of a line. *)
Fixpoint decls_from (bol : bool) (s : text) : list text :=
  match s with
  | [] => []
  | c :: s' =>
      (if bol
       then match decl_head s with
            | Some v => [v]
            | None => []
            end
       else [])
      ++ decls_from (is_break c) s'
  end.

Definition declarations (s : text) : list text := decls_from true s.

(** The routing rule of the specification's data model. *)
Record RoutingRule : Type := {
  from_route : text;
  to_route : text
}.

(** The rule that line 153 writes for an SPA name. *)
Definition rule_of_spa (spa_name : text) : RoutingRule :=
  {| from_route := py "/" ++ spa_name ++ py "/<path:app_path>";
     to_route := spa_name |}.

Definition QUOTE : char := 39.
Definition BACKSLASH : char := 92.

Definition text_eqb (a b : text) : bool :=
  if list_eq_dec N.eq_dec a b then true else false.

(** The characters a backslash escape of a Python string literal stands
    for.  Octal, hexadecimal, [\N], [\u] and [\U] escapes are not read;
    an unknown escape keeps its backslash. *)
Definition escape (e : char) : option text :=
  if (e =? BACKSLASH) || (e =? QUOTE) || (e =? 34) then Some [e]
  else if e =? nl then Some []
  else if e =? 110 then Some [10]
  else if e =? 114 then Some [13]
  else if e =? 116 then Some [9]
  else if e =? 97 then Some [7]
  else if e =? 98 then Some [8]
  else if e =? 102 then Some [12]
  else if e =? 118 then Some [11]
  else if ((48 <=? e) && (e <=? 55)) || (e =? 120) || (e =? 78)
          || (e =? 117) || (e =? 85) then None
  else Some [BACKSLASH; e].

(** The body of a single-quoted string literal, after the opening quote:
    its value and the text after the closing quote. *)
Fixpoint sq_body (s : text) : option (text * text) :=
  match s with
  | [] => None
  | c :: s' =>
      if c =? QUOTE then Some ([], s')
      else if is_break c then None
      else if c =? BACKSLASH then
        match s' with
        | [] => None
        | e :: s'' =>
            match escape e, sq_body s'' with
            | Some v, Some (g, r) => Some (v ++ g, r)
            | _, _ => None
            end
        end
      else
        match sq_body s' with
        | Some (g, r) => Some (c :: g, r)
        | None => None
        end
  end.

Definition sq_string (s : text) : option (text * text) :=
  bind_opt (lit [QUOTE] s) sq_body.

(** ['key': 'value'] *)
Definition key_value (key s : text) : option (text * text) :=
  bind_opt (sq_string s) (fun kr =>
    if text_eqb (fst kr) key
    then bind_opt (lit (py ":") (skip_blanks (snd kr)))
           (fun r => sq_string (skip_blanks r))
    else None).

(** [{'from_route': '...', 'to_route': '...'}] at the start of [s]: the
    record and the text after the closing brace. *)
Definition parse_record (s : text) : option (RoutingRule * text) :=
  bind_opt (lit (py "{") s) (fun s1 =>
  bind_opt (key_value (py "from_route") (skip_blanks s1)) (fun fr =>
  bind_opt (lit (py ",") (skip_blanks (snd fr))) (fun s2 =>
  bind_opt (key_value (py "to_route") (skip_blanks s2)) (fun tr =>
  bind_opt (lit (py "}") (skip_blanks (snd tr))) (fun s3 =>
  Some ({| from_route := fst fr; to_route := fst tr |}, s3)))))).

(** The first record of a list literal, and the text after it. *)
Definition first_record (v : text) : option (RoutingRule * text) :=
  bind_opt (lit [LBRACKET] v) (fun s => parse_record (skip_blanks s)).

(** ** Assignments to the variable

    A second, wider reading of the same text, for the statements that
    count declarations.  An assignment to the variable is read at every
    place of the text, at the start of a line or not, in code, comment or
    string alike: the name, white space or line continuations, and then
    [=] (not [==]) or the [:] of an annotation.  Its value is the text
    that follows, without the blanks before it, as far as the line
    goes. *)
Definition COLON : char := 58.

Fixpoint skip_spaces (s : text) : text :=
  match s with
  | [] => []
  | c :: s' => if is_space c || (c =? BACKSLASH) then skip_spaces s' else s
  end.

Definition assign_head (s : text) : option text :=
  match lit NAME s with
  | Some r =>
      match skip_spaces r with
      | c :: v =>
          if ((c =? EQUALS) && negb (starts_with_equals v)) || (c =? COLON)
          then Some (take_line (skip_blanks v))
          else None
      | [] => None
      end
  | None => None
  end.

(** The values of the assignments to the variable, in the order of the
    text. *)
Fixpoint assignments (s : text) : list text :=
  match s with
  | [] => []
  | _ :: s' =>
      match assign_head s with
      | Some v => [v]
      | None => []
      end ++ assignments s'
  end.

(** ** List literals

    A value is a syntactically valid list literal when it is a list
    display of literals, closed on its line, with nothing after it but
    blanks and a comment.  The literals read here are strings in single or
    double quotes with the escapes of [escape], decimal integers, [True],
    [False], [None], lists and dictionaries of literals; items are
    separated by commas, and a comma may follow the last one.  The value
    is read by a pushdown recogniser, one character at a time. *)
Definition DQUOTE : char := 34.
Definition COMMA : char := 44.
Definition HASH : char := 35.
Definition LBRACE : char := 123.
Definition RBRACE : char := 125.

Definition is_digit (c : char) : bool := (48 <=? c) && (c <=? 57).

(** The displays that are open: a list, or a dictionary that stands at a
    key or at the value of a key. *)
Inductive frame : Type := FList | FKey | FVal.

Inductive mode : Type :=
  | Open                (* a value may start; so may the closing bracket, *)
                        (* in a list or where a key is due *)
  | After               (* a value has ended *)
  | Str (q : char)      (* in a string opened by the quote [q] *)
  | Esc (q : char)      (* after a backslash in such a string *)
  | Zero                (* after the digit 0 *)
  | Num                 (* in an integer *)
  | Word (w : text).    (* in a keyword, [w] still to come *)

Inductive state : Type :=
  | Start                                 (* the opening bracket is due *)
  | Inside (m : mode) (st : list frame)   (* [st]: the open displays *)
  | Trailing                              (* in the comment after the list *)
  | Stuck.                                (* not a list literal *)

Definition after_value (st : list frame) (c : char) : state :=
  if is_blank c then Inside After st
  else match st with
       | [] => if c =? HASH then Trailing else Stuck
       | FList :: st' =>
           if c =? COMMA then Inside Open st
           else if c =? RBRACKET then Inside After st'
           else Stuck
       | FKey :: st' =>
           if c =? COLON then Inside Open (FVal :: st') else Stuck
       | FVal :: st' =>
           if c =? COMMA then Inside Open (FKey :: st')
           else if c =? RBRACE then Inside After st'
           else Stuck
       end.

Definition value_start (st : list frame) (c : char) : state :=
  if is_blank c then Inside Open st
  else if (c =? QUOTE) || (c =? DQUOTE) then Inside (Str c) st
  else if c =? LBRACKET then Inside Open (FList :: st)
  else if c =? LBRACE then Inside Open (FKey :: st)
  else if c =? 48 then Inside Zero st
  else if is_digit c then Inside Num st
  else if c =? 84 then Inside (Word (py "rue")) st
  else if c =? 70 then Inside (Word (py "alse")) st
  else if c =? 78 then Inside (Word (py "one")) st
  else match st with
       | FList :: st' => if c =? RBRACKET then Inside After st' else Stuck
       | FKey :: st' => if c =? RBRACE then Inside After st' else Stuck
       | _ => Stuck
       end.

Definition step (s : state) (c : char) : state :=
  match s with
  | Start => if c =? LBRACKET then Inside Open [FList] else Stuck
  | Inside Open st => value_start st c
  | Inside After st => after_value st c
  | Inside (Str q) st =>
      if c =? q then Inside After st
      else if is_break c then Stuck
      else if c =? BACKSLASH then Inside (Esc q) st
      else Inside (Str q) st
  | Inside (Esc q) st =>
      match escape c with
      | Some _ => Inside (Str q) st
      | None => Stuck
      end
  | Inside Zero st => if is_digit c then Stuck else after_value st c
  | Inside Num st => if is_digit c then Inside Num st else after_value st c
  | Inside (Word w) st =>
      match w with
      | [] => Stuck
      | [x] => if c =? x then Inside After st else Stuck
      | x :: w' => if c =? x then Inside (Word w') st else Stuck
      end
  | Trailing => Trailing
  | Stuck => Stuck
  end.

Definition accepts (s : state) : bool :=
  match s with
  | Inside After [] => true
  | Trailing => true
  | _ => false
  end.

Definition scan (v : text) (s : state) : state := fold_left step v s.

Definition list_literal (v : text) : bool := accepts (scan v Start).

(** What may follow a list on its line: blanks, then nothing or a
    comment. *)
Definition trailer (s : text) : bool :=
  match skip_blanks s with
  | [] => true
  | c :: _ => c =? HASH
  end.

(* ===================================================================== *)
(** * The host: pathlib, subprocess, json and the files of the project *)
(* ===================================================================== *)

(** A parsed JSON document; an object keeps its members in order. *)
#[local] Unset Elimination Schemes.
Inductive json : Type :=
  | JNull
  | JBool (b : bool)
  | JNumber (repr : text)
  | JString (s : text)
  | JArray (items : list json)
  | JObject (members : list (text * json)).
#[local] Set Elimination Schemes.

Fixpoint dict_get (k : text) (m : list (text * json)) : option json :=
  match m with
  | [] => None
  | (k', v) :: m' => if text_eqb k' k then Some v else dict_get k m'
  end.

(** [d[k] = v]: an existing key keeps its place, a new one goes last. *)
Fixpoint dict_set (k : text) (v : json) (m : list (text * json))
  : list (text * json) :=
  match m with
  | [] => [(k, v)]
  | (k', v') :: m' =>
      if text_eqb k' k then (k, v) :: m' else (k', v') :: dict_set k v m'
  end.

Inductive py_error : Type :=
  | KeyError (k : text)
  | TypeError.

(** [data["scripts"][key] = value] *)
Definition set_script (key value : text) (data : json) : py_error + json :=
  match data with
  | JObject m =>
      match dict_get (py "scripts") m with
      | Some (JObject sm) =>
          inr (JObject (dict_set (py "scripts")
                          (JObject (dict_set key (JString value) sm)) m))
      | Some _ => inl TypeError
      | None => inl (KeyError (py "scripts"))
      end
  | _ => inl TypeError
  end.

(** What the generator asks of its environment.  The file system and the
    external commands are not part of the program: they are an interface,
    and so is [create_file] of [doppio.commands.utils]. *)
Class Host : Type := {
  path : Type;
  disk : Type;
  os_error : Type;
  Path : text -> path;
  joinpath : path -> text -> path;
  absolute : disk -> path -> text;
  path_exists : disk -> path -> bool;
  mkdir : path -> disk -> os_error + disk;
  touch : path -> disk -> os_error + disk;
  read_text : path -> disk -> os_error + text;
  write_text : path -> text -> disk -> os_error + disk;
  subprocess_run : list text -> path -> disk -> os_error + disk;
  create_file : path -> text -> disk -> os_error + disk;
  json_load : text -> os_error + json;
  json_dump : json -> text
}.

(** The constants of [doppio.commands.boilerplates]. *)
Class Boilerplates : Type := {
  MAIN_JS_BOILERPLATE : text;
  PROXY_OPTIONS_BOILERPLATE : text;
  VITE_CONFIG_BOILERPLATE : text;
  ROUTER_INDEX_BOILERPLATE : text;
  AUTH_ROUTES_BOILERPLATE : text;
  APP_VUE_BOILERPLATE : text;
  HOME_VUE_BOILERPLATE : text;
  LOGIN_VUE_BOILERPLATE : text
}.

(** The state a run acts on: the disk, and the lines the generator itself
    has written to the standard output so far, with [print] and
    [click.echo].  What the commands it starts write there is theirs and
    is not recorded. *)
Record world `{Host} : Type := {
  w_disk : disk;
  w_stdout : list text
}.

Inductive error `{Host} : Type :=
  | OSError (e : os_error)
  | PyError (e : py_error).

(** A method either returns or raises; the effects made before an
    exception stay. *)
Inductive outcome `{Host} (A : Type) : Type :=
  | Returned (a : A) (w : world)
  | Raised (e : error) (w : world).

Arguments Returned {_ _} a w.
Arguments Raised {_ _} e w.

Definition M `{Host} (A : Type) : Type := world -> outcome A.

Definition ret `{Host} {A : Type} (a : A) : M A := fun w => Returned a w.

Definition bind `{Host} {A B : Type} (c : M A) (k : A -> M B) : M B :=
  fun w =>
    match c w with
    | Returned a w' => k a w'
    | Raised e w' => Raised e w'
    end.

Notation "x <- c ;; k" := (bind c (fun x => k))
  (at level 61, c at next level, right associativity).
Notation "c ;; k" := (bind c (fun _ => k))
  (at level 61, right associativity).

(** [print] and [click.echo]: one more line on the standard output. *)
Definition emit `{Host} (msg : text) : M unit :=
  fun w => Returned tt {| w_disk := w_disk w; w_stdout := w_stdout w ++ [msg] |}.

Definition py_print `{Host} : text -> M unit := emit.
Definition click_echo `{Host} : text -> M unit := emit.

(** A question to the disk, such as [Path.exists]. *)
Definition ask `{Host} {A : Type} (q : disk -> A) : M A :=
  fun w => Returned (q (w_disk w)) w.

(** An action on the disk. *)
Definition act `{Host} (f : disk -> os_error + disk) : M unit :=
  fun w =>
    match f (w_disk w) with
    | inr d => Returned tt {| w_disk := d; w_stdout := w_stdout w |}
    | inl e => Raised (OSError e) w
    end.

(** [with p.open("r") as f: f.read()] *)
Definition read `{Host} (p : path) : M text :=
  fun w =>
    match read_text p (w_disk w) with
    | inr t => Returned t w
    | inl e => Raised (OSError e) w
    end.

Definition load `{Host} (t : text) : M json :=
  fun w =>
    match json_load t with
    | inr j => Returned j w
    | inl e => Raised (OSError e) w
    end.

Definition py_try `{Host} {A : Type} (r : py_error + A) : M A :=
  fun w =>
    match r with
    | inr a => Returned a w
    | inl e => Raised (PyError e) w
    end.

(* ===================================================================== *)
(** * SPAGenerator *)
(* ===================================================================== *)

Record SPAGenerator `{Host} : Type := {
  app : text;
  app_path : path;
  spa_name : text;
  spa_path : path;
  add_tailwindcss : bool
}.

(** [__init__] *)
Definition new_SPAGenerator `{Host} (spa_name app : text)
    (add_tailwindcss : bool) : SPAGenerator :=
  let app_path := joinpath (Path (py "../apps")) app in
  {| app := app;
     app_path := app_path;
     spa_name := spa_name;
     spa_path := joinpath app_path spa_name;
     add_tailwindcss := add_tailwindcss |}.

Section Methods.
Context `{Host} `{Boilerplates}.
Variable self : SPAGenerator.

(** The literal of lines 61-64. *)
Definition INDEX_CSS_BOILERPLATE : text :=
  py "@tailwind base;" ++ [nl] ++ py "@tailwind components;" ++ [nl]
  ++ py "@tailwind utilities;" ++ [nl; 9].

Definition setup_tailwindcss : M unit :=
  act (subprocess_run
         [py "npm"; py "install"; py "-D"; py "tailwindcss@latest";
          py "postcss@latest"; py "autoprefixer@latest"]
         (spa_path self)) ;;
  act (subprocess_run [py "npx"; py "tailwindcss"; py "init"; py "-p"]
         (spa_path self)) ;;
  let index_css_path := joinpath (spa_path self) (py "src/index.css") in
  act (create_file index_css_path INDEX_CSS_BOILERPLATE).

Definition create_vue_files : M unit :=
  let app_vue := joinpath (spa_path self) (py "src/App.vue") in
  act (create_file app_vue APP_VUE_BOILERPLATE) ;;
  let views_dir := joinpath (spa_path self) (py "src/views") in
  present <- ask (fun d => path_exists d views_dir) ;;
  (if negb present then act (mkdir views_dir) else ret tt) ;;
  let home_vue := joinpath views_dir (py "Home.vue") in
  let login_vue := joinpath views_dir (py "Login.vue") in
  act (create_file home_vue HOME_VUE_BOILERPLATE) ;;
  act (create_file login_vue LOGIN_VUE_BOILERPLATE).

Definition setup_vue_router : M unit :=
  let router_dir_path := joinpath (spa_path self) (py "src/router") in
  act (mkdir router_dir_path) ;;
  let router_index_file := joinpath router_dir_path (py "index.js") in
  act (create_file router_index_file
         (str_replace (py "{{name}}") (spa_name self)
            ROUTER_INDEX_BOILERPLATE)) ;;
  let auth_routes_file := joinpath router_dir_path (py "auth.js") in
  act (create_file auth_routes_file AUTH_ROUTES_BOILERPLATE).

Definition initialize_vue_vite_project : M unit :=
  py_print (py "Scafolding vue project...") ;;
  act (subprocess_run
         [py "yarn"; py "create"; py "vite"; spa_name self;
          py "--template"; py "vue"]
         (app_path self)) ;;
  py_print (py "Installing dependencies...") ;;
  act (subprocess_run
         [py "yarn"; py "add"; py "vue-router@^4";
          py "socket.io-client@^2.4.0"]
         (spa_path self)).

Definition main_js_path : path :=
  joinpath (app_path self) (spa_name self ++ py "/src/main.js").

Definition link_controller_files : M unit :=
  py_print (py "Linking controller files...") ;;
  let main_js := main_js_path in
  present <- ask (fun d => path_exists d main_js) ;;
  if present then
    let boilerplate := MAIN_JS_BOILERPLATE in
    let boilerplate :=
      if add_tailwindcss self
      then py "import './index.css';" ++ [nl] ++ boilerplate
      else boilerplate in
    act (write_text main_js boilerplate)
  else
    click_echo (py "src/main.js not found!").

Definition setup_proxy_options : M unit :=
  let proxy_options_file := joinpath (spa_path self) (py "proxyOptions.js") in
  act (create_file proxy_options_file PROXY_OPTIONS_BOILERPLATE) ;;
  let vite_config_file := joinpath (spa_path self) (py "vite.config.js") in
  present <- ask (fun d => path_exists d vite_config_file) ;;
  (if negb present then act (touch vite_config_file) else ret tt) ;;
  let boilerplate :=
    str_replace (py "{{app}}") (app self) VITE_CONFIG_BOILERPLATE in
  let boilerplate := str_replace (py "{{name}}") (spa_name self) boilerplate in
  act (write_text vite_config_file boilerplate).

Definition hooks_py_path : path :=
  joinpath (Path (py "../apps/" ++ app self ++ py "/" ++ app self))
    (py "hooks.py").

Definition add_routing_rule_to_hooks : M unit :=
  let hooks_py := hooks_py_path in
  hooks <- read hooks_py ;;
  act (write_text hooks_py (updates_hooks hooks (spa_name self))).

Definition package_json_path : path :=
  joinpath (spa_path self) (py "package.json").

Definition NOT_FOUND_MESSAGE : text :=
  py "package.json not found. Please manulally update the build command.".

Definition update_package_json : M unit :=
  present <- ask (fun d => path_exists d package_json_path) ;;
  if negb present then
    py_print NOT_FOUND_MESSAGE
  else
    content <- read package_json_path ;;
    data <- load content ;;
    data <- py_try (set_script (py "build")
              (py "vite build --base=/assets/" ++ app self ++ py "/"
               ++ spa_name self ++ py "/ && yarn copy-html-entry") data) ;;
    data <- py_try (set_script (py "copy-html-entry")
              (py "cp ../" ++ app self ++ py "/public/" ++ spa_name self
               ++ py "/index.html" ++ py " ../" ++ app self ++ py "/www/"
               ++ spa_name self ++ py ".html") data) ;;
    act (write_text package_json_path (json_dump data)) ;;
    let app_package_json_path := joinpath (app_path self) (py "package.json") in
    present <- ask (fun d => path_exists d app_package_json_path) ;;
    if negb present then
      act (subprocess_run [py "npm"; py "init"; py "--yes"] (app_path self)) ;;
      content <- read app_package_json_path ;;
      data <- load content ;;
      data <- py_try (set_script (py "dev")
                (py "cd " ++ spa_name self ++ py " && yarn dev") data) ;;
      data <- py_try (set_script (py "build")
                (py "cd " ++ spa_name self ++ py " && yarn build") data) ;;
      act (write_text app_package_json_path (json_dump data))
    else ret tt.

Definition create_www_directory : M unit :=
  let www_dir_path := joinpath (app_path self) (app self ++ py "/www") in
  present <- ask (fun d => path_exists d www_dir_path) ;;
  if negb present then act (mkdir www_dir_path) else ret tt.

Definition generate_spa : M unit :=
  click_echo (py "Generating spa...") ;;
  initialize_vue_vite_project ;;
  link_controller_files ;;
  setup_proxy_options ;;
  setup_vue_router ;;
  create_vue_files ;;
  update_package_json ;;
  create_www_directory ;;
  (if add_tailwindcss self then setup_tailwindcss else ret tt) ;;
  add_routing_rule_to_hooks ;;
  abs <- ask (fun d => absolute d (spa_path self)) ;;
  click_echo (py "Run: cd " ++ abs ++ py " && npm run dev") ;;
  click_echo (py "to start the development server and visit: http://<site>:8080").

End Methods.

(** An in-memory host, to run the generator on: a path is its string, the
    disk is the list of the files with their contents, directories are
    files without content, external commands leave the disk alone and no
    JSON reader is plugged in. *)
Inductive mem_error : Type :=
  | FileNotFoundError
  | FileExistsError
  | JSONDecodeError.

Definition mem_lookup (d : list (text * text)) (p : text) : option text :=
  option_map snd (find (fun e => text_eqb (fst e) p) d).

Definition mem_exists (d : list (text * text)) (p : text) : bool :=
  match mem_lookup d p with
  | Some _ => true
  | None => false
  end.

Definition mem_store (p t : text) (d : list (text * text))
  : list (text * text) :=
  (p, t) :: filter (fun e => negb (text_eqb (fst e) p)) d.

#[local] Instance MemHost : Host := {|
  path := text;
  disk := list (text * text);
  os_error := mem_error;
  Path := fun s => s;
  joinpath := fun p s => p ++ py "/" ++ s;
  absolute := fun _ p => py "/bench/sites/" ++ p;
  path_exists := mem_exists;
  mkdir := fun p d =>
    if mem_exists d p then inl FileExistsError else inr ((p, []) :: d);
  touch := fun p d => if mem_exists d p then inr d else inr ((p, []) :: d);
  read_text := fun p d =>
    match mem_lookup d p with
    | Some t => inr t
    | None => inl FileNotFoundError
    end;
  write_text := fun p t d => inr (mem_store p t d);
  subprocess_run := fun _ _ d => inr d;
  create_file := fun p t d => inr (mem_store p t d);
  json_load := fun _ => inl JSONDecodeError;
  json_dump := fun _ => py "{}"
|}.

#[local] Instance SampleBoilerplates : Boilerplates := {|
  MAIN_JS_BOILERPLATE := py "import { createApp } from 'vue';";
  PROXY_OPTIONS_BOILERPLATE := [];
  VITE_CONFIG_BOILERPLATE := py "/assets/{{app}}/{{name}}/";
  ROUTER_INDEX_BOILERPLATE := py "/{{name}}";
  AUTH_ROUTES_BOILERPLATE := [];
  APP_VUE_BOILERPLATE := [];
  HOME_VUE_BOILERPLATE := [];
  LOGIN_VUE_BOILERPLATE := []
|}.

(* ===================================================================== *)
(** * Vocabulary of the statements *)
(* ===================================================================== *)

(** ** Texts and lines *)

(** No line feed in the text: [.] matches every character of it. *)
Definition one_line (g : text) : bool := forallb is_dot g.

(** No line break of the source in the text. *)
Definition unbroken (g : text) : bool :=
  forallb (fun c => negb (is_break c)) g.

(** The text is empty or starts a new line: nothing is left on the line. *)
Definition eol (s : text) : bool :=
  match s with
  | [] => true
  | c :: _ => c =? nl
  end.

(** The text is empty or ends with a line feed: what follows starts a line. *)
Definition bol (s : text) : bool :=
  match s with
  | [] => true
  | _ :: _ => last s 0 =? nl
  end.

(** The first character of [b], if any, is none of the characters [q]. *)
Definition head_outside (q b : text) : bool :=
  match b with
  | [] => true
  | c :: _ => negb (existsb (N.eqb c) q)
  end.

(** [agree q a]: [q] and [a] are equal as far as the shorter goes. *)
Fixpoint agree (q a : text) : bool :=
  match q, a with
  | x :: q', c :: a' => (x =? c) && agree q' a'
  | _, _ => true
  end.

(** No occurrence of [q] can start inside [a], whatever follows [a]. *)
Fixpoint no_start (q a : text) : bool :=
  match a with
  | [] => true
  | _ :: a' => negb (agree q a) && no_start q a'
  end.

(** ** The pattern *)

(** At most one white space character, as [\s?] takes it. *)
Definition opt_ws (ws : text) : bool :=
  match ws with
  | [] => true
  | [c] => is_space c
  | _ => false
  end.

(** The declaration the pattern recognises: the name, [ws1], [=], [ws2]
    and the span [g] between brackets. *)
Definition declaration (ws1 ws2 g : text) : text :=
  NAME ++ ws1 ++ EQUALS :: ws2 ++ LBRACKET :: g ++ [RBRACKET].

(** The result of a match when the text [X] is put after the subject. *)
Definition push (X : text) (o : option (text * text)) : option (text * text) :=
  option_map (fun gr => (fst gr, snd gr ++ X)) o.

(** The text starts with neither [=] nor an opening bracket. *)
Definition plain_start (X : text) : bool :=
  head_outside [EQUALS; LBRACKET] X.

(** ** The placeholder *)

(** An occurrence of the placeholder ends on the characters of [rule}]. *)
Definition PLACEHOLDER_TAIL : text := py "rule}".


(** What an injection makes of a stretch of text that it does not extend:
    the matches of the pattern in it get the record, and so does every
    placeholder.  A [quiet] stretch is left as it is ([rewritten_quiet]). *)
Definition rewritten (spa t : text) : text :=
  str_replace PLACEHOLDER (rule spa) (re_sub TEMPLATE t).

(** A bracket span the pattern recognises, [ws1] and [ws2] being the white
    space around [=]: at most one character each; the span is not empty,
    stays on the line and does not hold the placeholder. *)
Definition recognised (ws1 ws2 g : text) : bool :=
  opt_ws ws1 && opt_ws ws2
  && match g with [] => false | _ :: _ => true end
  && one_line g && negb (occurs PLACEHOLDER g).

(** ** SPA names *)

(** Characters that stand for themselves in a single-quoted literal. *)
Definition plain_char (c : char) : bool :=
  negb ((c =? QUOTE) || (c =? BACKSLASH) || is_break c).

Definition plain (s : text) : bool := forallb plain_char s.

(** A name that stays inside the quotes that line 153 puts around it:
    read as the inside of a string of the record, it leaves the string
    open, for the quote that follows it to close. *)
Definition quotable (s : text) : bool :=
  match scan s (Inside (Str QUOTE) [FVal; FList]) with
  | Inside (Str q) [FVal; FList] => q =? QUOTE
  | _ => false
  end.

(** ** Worlds *)

(** More lines on the standard output, the disk as it was. *)
Definition printed `{Host} (w : world) (lines : list text) : world :=
  {| w_disk := w_disk w; w_stdout := w_stdout w ++ lines |}.

(** A world of the in-memory host, and a generator to run on it. *)
Definition mem_world (d : list (text * text)) (out : list text)
  : @world MemHost :=
  @Build_world MemHost d out.

Definition billing_in_shop : @SPAGenerator MemHost :=
  new_SPAGenerator (py "billing") (py "shop") false.

(** ** Further vocabulary *)

(** A closing bracket stands on what is left of the line. *)
Fixpoint closes_on_line (s : text) : bool :=
  match s with
  | [] => false
  | c :: s' => if is_dot c then (c =? RBRACKET) || closes_on_line s' else false
  end.

(** The start of a declaration up to its opening bracket. *)
Definition opening (ws1 ws2 : text) : text :=
  NAME ++ ws1 ++ EQUALS :: ws2 ++ [LBRACKET].






(** [data[key]] and [data["scripts"][key]] of a manifest, when they are
    there. *)
Definition member (key : text) (data : json) : option json :=
  match data with
  | JObject m => dict_get key m
  | _ => None
  end.

Definition script (key : text) (data : json) : option json :=
  match member (py "scripts") data with
  | Some scripts => member key scripts
  | None => None
  end.

(** The outermost of the open displays is the list itself. *)
Definition bottomed (st : list frame) : bool :=
  match last st FKey with
  | FList => true
  | _ => false
  end.

(** The list is not closed yet, or the value is not a list literal. *)
Definition unclosed (s : state) : bool :=
  match s with
  | Inside _ st => bottomed st
  | Stuck => true
  | _ => false
  end.

(** ** Text files

    No carriage return in the text.  A file opened in text mode gives
    such a text when it is read: line ends come as line feeds. *)
Definition no_cr (t : text) : bool := forallb (fun c => negb (c =? 13)) t.

(** ** A host without its tools *)

(** The one manifest the JSON reader of [BareHost] knows besides the
    empty object: an object with an empty [scripts] object. *)
Definition BARE_MANIFEST : text :=
  py "{" ++ [34] ++ py "scripts" ++ [34] ++ py ": {}}".

(** A second in-memory host, with the disk of [MemHost]: no external
    command can be started, and the JSON reader knows two documents. *)
Definition BareHost : Host := {|
  path := text;
  disk := list (text * text);
  os_error := mem_error;
  Path := fun s => s;
  joinpath := fun p s => p ++ py "/" ++ s;
  absolute := fun _ p => py "/bench/sites/" ++ p;
  path_exists := mem_exists;
  mkdir := fun p d =>
    if mem_exists d p then inl FileExistsError else inr ((p, []) :: d);
  touch := fun p d => if mem_exists d p then inr d else inr ((p, []) :: d);
  read_text := fun p d =>
    match mem_lookup d p with
    | Some t => inr t
    | None => inl FileNotFoundError
    end;
  write_text := fun p t d => inr (mem_store p t d);
  subprocess_run := fun _ _ _ => inl FileNotFoundError;
  create_file := fun p t d => inr (mem_store p t d);
  json_load := fun t =>
    if text_eqb t (py "{}") then inr (JObject [])
    else if text_eqb t BARE_MANIFEST
         then inr (JObject [(py "scripts", JObject [])])
         else inl JSONDecodeError;
  json_dump := fun _ => py "{}"
|}.

Definition bare_world (d : list (text * text)) (out : list text)
  : @world BareHost :=
  @Build_world BareHost d out.

Definition bare_billing_in_shop : @SPAGenerator BareHost :=
  @new_SPAGenerator BareHost (py "billing") (py "shop") false.

(* ===================================================================== *)
(** * Prefixes, occurrences and [str.replace] *)
(* ===================================================================== *)

Lemma lit_app (p s : text) : lit p (p ++ s) = Some s.
Proof.
  induction p as [|a p IH]; simpl; [reflexivity|].
  now rewrite N.eqb_refl.
Qed.

Lemma lit_inv (p s r : text) : lit p s = Some r -> s = p ++ r.
Proof.
  revert s; induction p as [|a p IH]; intros s E; simpl in *.
  - now inversion E.
  - destruct s as [|c s]; [discriminate|].
    destruct (N.eqb_spec a c) as [->|]; [|discriminate].
    now rewrite (IH _ E).
Qed.

Lemma lit_length (p s r : text) :
  lit p s = Some r -> length s = (length p + length r)%nat.
Proof.
  intros E; rewrite (lit_inv _ _ _ E); apply length_app.
Qed.

Lemma head_outside_cons (q b : text) (x : char) :
  head_outside (x :: q) b = true -> head_outside q b = true.
Proof.
  destruct b as [|c b]; simpl; [reflexivity|].
  rewrite negb_orb; intros E; now apply andb_prop in E.
Qed.

(** A prefix test does not see past the end of [a] when the text that
    follows starts with a character foreign to the prefix. *)
Lemma lit_app_outside (q a b : text) :
  head_outside q b = true ->
  lit q (a ++ b) = option_map (fun r => r ++ b) (lit q a).
Proof.
  revert a; induction q as [|x q IH]; intros a Hb; simpl; [reflexivity|].
  destruct a as [|c a]; simpl.
  - destruct b as [|c b]; [reflexivity|].
    simpl in Hb; rewrite negb_orb in Hb; apply andb_prop in Hb as [Hx _].
    rewrite N.eqb_sym in Hx.
    now destruct (x =? c).
  - destruct (x =? c); [|reflexivity].
    apply IH; eapply head_outside_cons; eassumption.
Qed.

Lemma lit_app_boundary (q a b : text) :
  a <> [] -> head_outside (tl q) b = true ->
  lit q (a ++ b) = option_map (fun r => r ++ b) (lit q a).
Proof.
  intros Ha Hb; destruct q as [|x q]; [reflexivity|].
  destruct a as [|c a]; [contradiction|]; simpl.
  destruct (x =? c); [|reflexivity].
  now apply lit_app_outside.
Qed.

Lemma occurs_eqn (q s : text) :
  occurs q s =
  match lit q s with
  | Some _ => true
  | None => match s with [] => false | _ :: s' => occurs q s' end
  end.
Proof. destruct s; reflexivity. Qed.


Lemma replace_fuel_S (n : nat) (old new s : text) :
  replace_fuel (S n) old new s =
  match lit old s with
  | Some rest => new ++ replace_fuel n old new rest
  | None => match s with
            | [] => []
            | c :: s' => c :: replace_fuel n old new s'
            end
  end.
Proof. reflexivity. Qed.

Section Replace.
Variables (o : char) (old' new : text).
Let old := o :: old'.

Lemma replace_fuel_enough (n m : nat) (s : text) :
  (length s <= n)%nat -> (length s <= m)%nat ->
  replace_fuel n old new s = replace_fuel m old new s.
Proof.
  revert m s; induction n as [|n IH]; intros m s Hn Hm.
  - destruct s; [|simpl in Hn; lia].
    destruct m; reflexivity.
  - destruct m as [|m].
    + destruct s; [reflexivity|simpl in Hm; lia].
    + rewrite !replace_fuel_S. destruct (lit old s) as [rest|] eqn:L.
      * apply lit_length in L; simpl in L.
        f_equal; apply IH; lia.
      * destruct s as [|c s]; [reflexivity|].
        simpl in Hn, Hm; f_equal; apply IH; lia.
Qed.

Lemma str_replace_fuel (s : text) :
  str_replace old new s = replace_fuel (length s) old new s.
Proof. reflexivity. Qed.

(** The defining equation of [str.replace]: the fuel never runs out. *)
Lemma str_replace_eqn (s : text) :
  str_replace old new s =
  match lit old s with
  | Some rest => new ++ str_replace old new rest
  | None => match s with
            | [] => []
            | c :: s' => c :: str_replace old new s'
            end
  end.
Proof.
  destruct s as [|c s]; [reflexivity|].
  rewrite (str_replace_fuel (c :: s)).
  change (length (c :: s)) with (S (length s)); rewrite replace_fuel_S.
  destruct (lit old (c :: s)) as [rest|] eqn:L;
    rewrite str_replace_fuel; [|reflexivity].
  apply lit_length in L; simpl in L.
  f_equal; apply replace_fuel_enough; lia.
Qed.

Lemma str_replace_hit (s : text) :
  str_replace old new (old ++ s) = new ++ str_replace old new s.
Proof. now rewrite str_replace_eqn, lit_app. Qed.

Lemma str_replace_absent (s : text) :
  occurs old s = false -> str_replace old new s = s.
Proof.
  induction s as [|c s IH]; intros E; rewrite str_replace_eqn;
    rewrite occurs_eqn in E.
  - reflexivity.
  - destruct (lit old (c :: s)); [discriminate|].
    now rewrite IH.
Qed.

(** Replacement works on both sides of a boundary that no occurrence of
    [old] can cross. *)
Lemma str_replace_app (a b : text) :
  head_outside old' b = true ->
  str_replace old new (a ++ b) = str_replace old new a ++ str_replace old new b.
Proof.
  intros Hb.
  remember (length a) as n eqn:Hn.
  revert a Hn; induction n as [n IH] using lt_wf_ind; intros a Hn.
  destruct a as [|c a]; [now rewrite (str_replace_eqn [])|].
  rewrite (str_replace_eqn ((c :: a) ++ b)), (str_replace_eqn (c :: a)).
  rewrite lit_app_boundary by (discriminate || assumption).
  destruct (lit old (c :: a)) as [rest|] eqn:L; simpl.
  - apply lit_length in L; simpl in L, Hn.
    rewrite <- app_assoc; f_equal.
    apply (IH (length rest)); [lia|reflexivity].
  - f_equal. simpl in Hn. apply (IH (length a)); [lia|reflexivity].
Qed.

Lemma str_replace_absent_app (a b : text) :
  occurs old a = false -> head_outside old' b = true ->
  str_replace old new (a ++ b) = a ++ str_replace old new b.
Proof.
  intros Ha Hb; now rewrite str_replace_app, str_replace_absent.
Qed.

End Replace.

(* ===================================================================== *)
(** * The pattern: where a match can be, and [pattern.sub] *)
(* ===================================================================== *)

Lemma bol_inv (s : text) : bol s = true -> s = [] \/ exists p, s = p ++ [nl].
Proof.
  destruct s as [|c s]; [now left|]; intros E; right.
  destruct (exists_last (l := c :: s)) as (p & x & Hs); [discriminate|].
  exists p; rewrite Hs in *; unfold bol in E.
  rewrite last_last in E.
  destruct p; simpl in E; apply N.eqb_eq in E; now subst.
Qed.

Lemma eol_inv (s : text) : eol s = true -> s = [] \/ exists t, s = nl :: t.
Proof.
  destruct s as [|c s]; [now left|]; simpl; intros E; right.
  apply N.eqb_eq in E; subst; now exists s.
Qed.


Lemma dot_star_close_length (s g r : text) :
  dot_star_close s = Some (g, r) -> (length r < length s)%nat.
Proof.
  revert g; induction s as [|c s IH]; intros g E; simpl in E; [discriminate|].
  destruct (is_dot c); [|discriminate].
  destruct (dot_star_close s) as [[g' r']|].
  - inversion E; subst; specialize (IH _ eq_refl); simpl; lia.
  - destruct (c =? RBRACKET); inversion E; subst; simpl; lia.
Qed.

Lemma dot_plus_close_length (s g r : text) :
  dot_plus_close s = Some (g, r) -> (length r < length s)%nat.
Proof.
  destruct s as [|c s]; simpl; [discriminate|].
  destruct (is_dot c); [|discriminate].
  destruct (dot_star_close s) as [[g' r']|] eqn:E; [|discriminate].
  intros H; inversion H; subst.
  apply dot_star_close_length in E; simpl; lia.
Qed.

Lemma opt_space_length (k : text -> option (text * text)) (s g r : text) :
  (forall s g r, k s = Some (g, r) -> (length r < length s)%nat) ->
  opt_space k s = Some (g, r) -> (length r < length s)%nat.
Proof.
  intros Hk; destruct s as [|c s]; simpl; [apply Hk|].
  destruct (is_space c); [|apply Hk].
  destruct (k s) as [[g' r']|] eqn:E; [|apply Hk].
  intros H; inversion H; subst; apply Hk in E; simpl; lia.
Qed.

Lemma bind_opt_some {A B : Type} (o : option A) (k : A -> option B) (b : B) :
  bind_opt o k = Some b -> exists a, o = Some a /\ k a = Some b.
Proof. destruct o as [a|]; [now exists a|discriminate]. Qed.

(** A match takes at least one character. *)
Lemma match_here_length (s g r : text) :
  match_here s = Some (g, r) -> (length r < length s)%nat.
Proof.
  unfold match_here; intros E.
  apply bind_opt_some in E as (s1 & L & E); apply lit_length in L.
  enough (length r < length s1)%nat by lia.
  revert E; apply opt_space_length; clear.
  intros s g r E.
  apply bind_opt_some in E as (s2 & L & E); apply lit_length in L.
  enough (length r < length s2)%nat by lia.
  revert E; apply opt_space_length; clear.
  intros s g r E.
  apply bind_opt_some in E as (s3 & L & E); apply lit_length in L.
  apply dot_plus_close_length in E; lia.
Qed.

Lemma sub_fuel_S (n : nat) (tpl : list tpl_item) (s : text) :
  sub_fuel (S n) tpl s =
  match match_here s with
  | Some (g, rest) => expand tpl g ++ sub_fuel n tpl rest
  | None => match s with
            | [] => []
            | c :: s' => c :: sub_fuel n tpl s'
            end
  end.
Proof. reflexivity. Qed.

Lemma sub_fuel_enough (tpl : list tpl_item) (n m : nat) (s : text) :
  (length s <= n)%nat -> (length s <= m)%nat ->
  sub_fuel n tpl s = sub_fuel m tpl s.
Proof.
  revert m s; induction n as [|n IH]; intros m s Hn Hm.
  - destruct s; [|simpl in Hn; lia].
    destruct m; reflexivity.
  - destruct m as [|m].
    + destruct s; [reflexivity|simpl in Hm; lia].
    + rewrite !sub_fuel_S. destruct (match_here s) as [[g rest]|] eqn:E.
      * apply match_here_length in E.
        f_equal; apply IH; lia.
      * destruct s as [|c s]; [reflexivity|].
        simpl in Hn, Hm; f_equal; apply IH; lia.
Qed.

(** The defining equation of [pattern.sub]: the fuel never runs out. *)
Lemma re_sub_eqn (tpl : list tpl_item) (s : text) :
  re_sub tpl s =
  match match_here s with
  | Some (g, rest) => expand tpl g ++ re_sub tpl rest
  | None => match s with
            | [] => []
            | c :: s' => c :: re_sub tpl s'
            end
  end.
Proof.
  unfold re_sub; destruct s as [|c s]; [reflexivity|].
  change (length (c :: s)) with (S (length s)); rewrite sub_fuel_S.
  destruct (match_here (c :: s)) as [[g rest]|] eqn:E; [|reflexivity].
  apply match_here_length in E; simpl in E.
  f_equal; apply sub_fuel_enough; lia.
Qed.

Lemma re_search_eqn (s : text) :
  re_search s =
  match match_here s with
  | Some _ => true
  | None => match s with [] => false | _ :: s' => re_search s' end
  end.
Proof. destruct s; reflexivity. Qed.

Lemma re_sub_absent (tpl : list tpl_item) (s : text) :
  re_search s = false -> re_sub tpl s = s.
Proof.
  induction s as [|c s IH]; intros E; rewrite re_sub_eqn;
    rewrite re_search_eqn in E.
  - reflexivity.
  - destruct (match_here (c :: s)); [discriminate|].
    now rewrite IH.
Qed.

Lemma re_search_app_r (a b : text) :
  re_search b = true -> re_search (a ++ b) = true.
Proof.
  intros E; induction a as [|c a IH]; [exact E|].
  change ((c :: a) ++ b) with (c :: a ++ b); rewrite re_search_eqn.
  now destruct (match_here (c :: a ++ b)).
Qed.

(** ** A line feed bounds every match

    [.] stops at a line feed, and a line feed taken by [\s?] must be
    followed by [=] or by an opening bracket.  A match that starts before a
    line feed therefore ends before it when the next line starts with
    neither. *)
Lemma dot_star_close_app_nl (p X : text) :
  dot_star_close (p ++ nl :: X) = push (nl :: X) (dot_star_close p).
Proof.
  induction p as [|c p IH]; [reflexivity|].
  change ((c :: p) ++ nl :: X) with (c :: p ++ nl :: X).
  simpl; rewrite IH.
  destruct (is_dot c); [|reflexivity].
  destruct (dot_star_close p) as [[g r]|]; simpl; [reflexivity|].
  now destruct (c =? RBRACKET).
Qed.

Lemma dot_plus_close_app_nl (p X : text) :
  dot_plus_close (p ++ nl :: X) = push (nl :: X) (dot_plus_close p).
Proof.
  destruct p as [|c p]; [reflexivity|].
  change ((c :: p) ++ nl :: X) with (c :: p ++ nl :: X).
  simpl; rewrite dot_star_close_app_nl.
  destruct (is_dot c); [|reflexivity].
  now destruct (dot_star_close p) as [[g r]|].
Qed.

Lemma opt_space_app_nl (k : text -> option (text * text)) (X : text) :
  (forall p, k (p ++ nl :: X) = push (nl :: X) (k p)) ->
  k X = None ->
  forall p, opt_space k (p ++ nl :: X) = push (nl :: X) (opt_space k p).
Proof.
  intros Hk HX [|c p].
  - simpl; rewrite HX; apply (Hk []).
  - change ((c :: p) ++ nl :: X) with (c :: p ++ nl :: X); simpl.
    destruct (is_space c); [|apply (Hk (c :: p))].
    rewrite Hk; destruct (k p) as [[g r]|]; [reflexivity|].
    apply (Hk (c :: p)).
Qed.

Lemma lit_char_app_nl (x : char) (p X : text) :
  (x =? nl) = false ->
  lit [x] (p ++ nl :: X) = option_map (fun r => r ++ nl :: X) (lit [x] p).
Proof.
  intros Hx; apply lit_app_outside.
  change (negb ((nl =? x) || false) = true).
  now rewrite N.eqb_sym, Hx.
Qed.

Lemma plain_start_lit (X : text) :
  plain_start X = true -> lit [EQUALS] X = None /\ lit [LBRACKET] X = None.
Proof.
  destruct X as [|c X]; [now split|].
  unfold plain_start, head_outside, existsb; rewrite !negb_orb.
  intros E; apply andb_prop in E as [E1 E]; apply andb_prop in E as [E2 _].
  change (lit [EQUALS] (c :: X)) with (if EQUALS =? c then Some X else None).
  change (lit [LBRACKET] (c :: X)) with (if LBRACKET =? c then Some X else None).
  rewrite (N.eqb_sym EQUALS), (N.eqb_sym LBRACKET).
  destruct (c =? EQUALS); [discriminate|]; now destruct (c =? LBRACKET).
Qed.

Lemma match_here_app_nl (p X : text) :
  plain_start X = true ->
  match_here (p ++ nl :: X) = push (nl :: X) (match_here p).
Proof.
  intros HX; apply plain_start_lit in HX as [HE HL].
  unfold match_here.
  rewrite (lit_app_outside NAME p (nl :: X)) by reflexivity.
  destruct (lit NAME p) as [s1|]; [|reflexivity].
  cbv beta delta [bind_opt option_map] iota.
  apply opt_space_app_nl; [|now rewrite HE].
  intros q; rewrite lit_char_app_nl by reflexivity.
  destruct (lit [EQUALS] q) as [s2|]; [|reflexivity].
  cbv beta delta [bind_opt option_map] iota.
  apply opt_space_app_nl; [|now rewrite HL].
  intros q'; rewrite lit_char_app_nl by reflexivity.
  destruct (lit [LBRACKET] q') as [s3|]; [|reflexivity].
  apply dot_plus_close_app_nl.
Qed.


(** [pattern.sub] works line by line across such a line feed. *)
Lemma re_sub_app_nl (tpl : list tpl_item) (p X : text) :
  plain_start X = true ->
  re_sub tpl (p ++ nl :: X) = re_sub tpl p ++ nl :: re_sub tpl X.
Proof.
  intros HX.
  remember (length p) as n eqn:Hn.
  revert p Hn; induction n as [n IH] using lt_wf_ind; intros p Hn.
  rewrite (re_sub_eqn tpl (p ++ nl :: X)), (re_sub_eqn tpl p).
  rewrite match_here_app_nl by assumption.
  destruct (match_here p) as [[g r]|] eqn:E; simpl.
  - apply match_here_length in E.
    rewrite <- app_assoc; f_equal.
    apply (IH (length r)); [lia|reflexivity].
  - destruct p as [|c p]; [reflexivity|].
    simpl; f_equal. apply (IH (length p)); [simpl in Hn; lia|reflexivity].
Qed.

(** The text before a declaration that starts a line is rewritten on its
    own. *)
Lemma re_sub_bol (tpl : list tpl_item) (pre X : text) :
  bol pre = true -> plain_start X = true ->
  re_sub tpl (pre ++ X) = re_sub tpl pre ++ re_sub tpl X.
Proof.
  intros Hp HX; destruct (bol_inv _ Hp) as [->|[p ->]]; [reflexivity|].
  rewrite <- app_assoc; change ([nl] ++ X) with (nl :: X).
  rewrite re_sub_app_nl by assumption.
  rewrite (re_sub_app_nl tpl p []) by reflexivity.
  now rewrite <- app_assoc.
Qed.

Lemma dot_star_close_intro (g tail : text) :
  one_line g = true -> dot_star_close tail = None ->
  dot_star_close (g ++ RBRACKET :: tail) = Some (g, tail).
Proof.
  intros Hg Ht; induction g as [|c g IH].
  - simpl; now rewrite Ht.
  - simpl in Hg; apply andb_prop in Hg as [Hc Hg].
    change ((c :: g) ++ RBRACKET :: tail) with (c :: g ++ RBRACKET :: tail).
    simpl; now rewrite Hc, (IH Hg).
Qed.



(* ===================================================================== *)
(** * What one injection writes *)
(* ===================================================================== *)

Lemma ph_app (R a b : text) :
  head_outside PLACEHOLDER_TAIL b = true ->
  str_replace PLACEHOLDER R (a ++ b) =
  str_replace PLACEHOLDER R a ++ str_replace PLACEHOLDER R b.
Proof. exact (str_replace_app 123 PLACEHOLDER_TAIL R a b). Qed.

Lemma ph_absent (R a : text) :
  occurs PLACEHOLDER a = false -> str_replace PLACEHOLDER R a = a.
Proof. exact (str_replace_absent 123 PLACEHOLDER_TAIL R a). Qed.

Lemma ph_absent_app (R a b : text) :
  occurs PLACEHOLDER a = false -> head_outside PLACEHOLDER_TAIL b = true ->
  str_replace PLACEHOLDER R (a ++ b) = a ++ str_replace PLACEHOLDER R b.
Proof. exact (str_replace_absent_app 123 PLACEHOLDER_TAIL R a b). Qed.

Lemma ph_hit (R s : text) :
  str_replace PLACEHOLDER R (PLACEHOLDER ++ s) = R ++ str_replace PLACEHOLDER R s.
Proof. exact (str_replace_hit 123 PLACEHOLDER_TAIL R s). Qed.

Lemma ph_eqn (R s : text) :
  str_replace PLACEHOLDER R s =
  match lit PLACEHOLDER s with
  | Some rest => R ++ str_replace PLACEHOLDER R rest
  | None => match s with
            | [] => []
            | c :: s' => c :: str_replace PLACEHOLDER R s'
            end
  end.
Proof. exact (str_replace_eqn 123 PLACEHOLDER_TAIL R s). Qed.

Lemma ph_occurs_cons (c : char) (s : text) :
  (123 =? c) = false -> occurs PLACEHOLDER (c :: s) = occurs PLACEHOLDER s.
Proof.
  intros E; rewrite (occurs_eqn PLACEHOLDER (c :: s)).
  change (lit PLACEHOLDER (c :: s))
    with (if 123 =? c then lit PLACEHOLDER_TAIL s else None).
  now rewrite E.
Qed.



(** Without a match, the fresh declaration goes after the text, in which
    every placeholder is replaced as well. *)
Lemma updates_hooks_fresh (hooks spa : text) :
  re_search hooks = false ->
  updates_hooks hooks spa =
  str_replace PLACEHOLDER (rule spa) hooks
  ++ nl :: py "website_route_rules = [" ++ rule spa ++ py ",]".
Proof.
  intros E; unfold updates_hooks, rules; rewrite E.
  generalize (rule spa) as R; intros R.
  cbv beta iota zeta delta [negb].
  rewrite ph_app by reflexivity.
  reflexivity.
Qed.


(* ===================================================================== *)
(** * The declarations of a text *)
(* ===================================================================== *)

Lemma skip_blanks_app_nl (r X : text) :
  skip_blanks (r ++ nl :: X) = skip_blanks r ++ nl :: X.
Proof.
  induction r as [|c r IH]; [reflexivity|].
  change ((c :: r) ++ nl :: X) with (c :: r ++ nl :: X); simpl.
  now destruct (is_blank c).
Qed.

Lemma unbroken_cons (c : char) (a : text) :
  unbroken (c :: a) = true -> is_break c = false /\ unbroken a = true.
Proof.
  unfold unbroken; simpl; intros E; apply andb_prop in E as [Hc Ha].
  now apply negb_true_iff in Hc.
Qed.

Lemma unbroken_app (a b : text) :
  unbroken (a ++ b) = unbroken a && unbroken b.
Proof. apply forallb_app. Qed.

Lemma take_line_cons (c : char) (s : text) :
  take_line (c :: s) = if is_break c then [] else c :: take_line s.
Proof. reflexivity. Qed.

Lemma take_line_app_nl (a X : text) :
  take_line (a ++ nl :: X) = take_line a.
Proof.
  induction a as [|c a IH]; [reflexivity|].
  change ((c :: a) ++ nl :: X) with (c :: a ++ nl :: X).
  now rewrite !take_line_cons, IH.
Qed.

Lemma take_line_unbroken (a b : text) :
  unbroken a = true -> take_line (a ++ b) = a ++ take_line b.
Proof.
  induction a as [|c a IH]; intros E; [reflexivity|].
  apply unbroken_cons in E as [Hc Ha].
  change ((c :: a) ++ b) with (c :: a ++ b).
  now rewrite take_line_cons, Hc, IH.
Qed.

Lemma take_line_eol (s : text) : eol s = true -> take_line s = [].
Proof.
  intros E; destruct (eol_inv _ E) as [->|[t ->]]; reflexivity.
Qed.

(** Whether a line declares the variable is settled on that line. *)
Lemma decl_head_app_nl (p X : text) :
  decl_head (p ++ nl :: X) = decl_head p.
Proof.
  unfold decl_head.
  rewrite (lit_app_outside NAME p (nl :: X)) by reflexivity.
  destruct (lit NAME p) as [r|]; [|reflexivity].
  cbv beta delta [option_map] iota.
  rewrite skip_blanks_app_nl.
  destruct (skip_blanks r) as [|c v]; [reflexivity|].
  change ((c :: v) ++ nl :: X) with (c :: v ++ nl :: X); cbv iota.
  rewrite skip_blanks_app_nl, take_line_app_nl.
  now destruct v.
Qed.

Lemma decls_from_app_nl (b : bool) (p X : text) :
  decls_from b (p ++ nl :: X) = decls_from b p ++ decls_from true X.
Proof.
  revert b; induction p as [|c p IH]; intros b.
  - change ([] ++ nl :: X) with (nl :: X).
    change (decls_from b (nl :: X))
      with ((if b then match decl_head (nl :: X) with
                       | Some v => [v]
                       | None => []
                       end else []) ++ decls_from true X).
    now destruct b.
  - change (decls_from b ((c :: p) ++ nl :: X))
      with ((if b then match decl_head ((c :: p) ++ nl :: X) with
                       | Some v => [v]
                       | None => []
                       end else []) ++ decls_from (is_break c) (p ++ nl :: X)).
    rewrite decl_head_app_nl, IH, app_assoc; reflexivity.
Qed.

Lemma decls_from_unbroken (L T : text) :
  unbroken L = true -> decls_from false (L ++ T) = decls_from false T.
Proof.
  induction L as [|c L IH]; intros E; [reflexivity|].
  apply unbroken_cons in E as [Hc HL].
  change (decls_from false ((c :: L) ++ T))
    with (decls_from (is_break c) (L ++ T)).
  rewrite Hc; now apply IH.
Qed.

(** The line the generator writes, [website_route_rules = [...]], is a
    declaration, and its value is the bracketed list. *)
Lemma declarations_written (V T : text) :
  unbroken V = true -> eol T = true ->
  declarations (py "website_route_rules = [" ++ V ++ py "]" ++ T) =
  (py "[" ++ V ++ py "]") :: decls_from false T.
Proof.
  intros HV HT; unfold declarations.
  change (py "website_route_rules = [" ++ V ++ py "]" ++ T)
    with (119 :: py "ebsite_route_rules = [" ++ V ++ py "]" ++ T).
  change (decls_from true (119 :: py "ebsite_route_rules = [" ++ V ++ py "]" ++ T))
    with (match decl_head (NAME ++ py " = [" ++ V ++ py "]" ++ T) with
          | Some v => [v]
          | None => []
          end ++ decls_from false (py "ebsite_route_rules = [" ++ V ++ py "]" ++ T)).
  unfold decl_head; rewrite lit_app.
  change (skip_blanks (py " = [" ++ V ++ py "]" ++ T))
    with (EQUALS :: py " [" ++ V ++ py "]" ++ T).
  cbv beta iota.
  change ((EQUALS =? EQUALS)
          && negb (starts_with_equals (py " [" ++ V ++ py "]" ++ T)))
    with true.
  change (skip_blanks (py " [" ++ V ++ py "]" ++ T))
    with (py "[" ++ V ++ py "]" ++ T).
  cbv beta iota.
  rewrite (app_assoc V), (app_assoc (py "[")).
  rewrite take_line_unbroken, (take_line_eol T HT), app_nil_r.
  2:{ now rewrite !unbroken_app, HV. }
  rewrite <- !app_assoc.
  change ([?x] ++ ?y) with (x :: y).
  f_equal.
  rewrite (app_assoc (py "ebsite_route_rules = [")), (app_assoc _ (py "]")).
  apply decls_from_unbroken.
  now rewrite !unbroken_app, HV.
Qed.

(** ** Replacing placeholders keeps the lines that declare nothing

    The record starts with a brace and stays on its line, like the
    placeholder it replaces; a declaration starts with the name, blanks
    and [=], none of them a brace. *)
Section PlaceholderLines.
Variable R' : text.
Hypothesis R'_unbroken : unbroken R' = true.
Let R : text := 123 :: R'.
Let f : text -> text := str_replace PLACEHOLDER R.

Lemma f_cases (c : char) (t : text) :
  (exists rest, c = 123 /\ t = PLACEHOLDER_TAIL ++ rest
                /\ f (c :: t) = R ++ f rest)
  \/ f (c :: t) = c :: f t.
Proof.
  unfold f; rewrite (ph_eqn R (c :: t)).
  destruct (lit PLACEHOLDER (c :: t)) as [rest|] eqn:L; [left|now right].
  exists rest; apply lit_inv in L; inversion L; subst; now repeat split.
Qed.

Lemma lit_f (q t : text) :
  existsb (N.eqb 123) q = false -> lit q (f t) = option_map f (lit q t).
Proof.
  revert t; induction q as [|x q IH]; intros t Hq; [reflexivity|].
  change (existsb (N.eqb 123) (x :: q))
    with ((123 =? x) || existsb (N.eqb 123) q) in Hq.
  apply orb_false_elim in Hq as [Hx Hq].
  destruct t as [|c t]; [reflexivity|].
  destruct (f_cases c t) as [(rest & -> & -> & E)|E]; rewrite E.
  - change (lit (x :: q) (R ++ f rest)) with
      (if x =? 123 then lit q (R' ++ f rest) else None).
    change (lit (x :: q) (123 :: PLACEHOLDER_TAIL ++ rest)) with
      (if x =? 123 then lit q (PLACEHOLDER_TAIL ++ rest) else None).
    rewrite N.eqb_sym, Hx; reflexivity.
  - change (lit (x :: q) (c :: f t)) with (if x =? c then lit q (f t) else None).
    change (lit (x :: q) (c :: t)) with (if x =? c then lit q t else None).
    destruct (x =? c); [now apply IH|reflexivity].
Qed.

Lemma skip_blanks_f (t : text) : skip_blanks (f t) = f (skip_blanks t).
Proof.
  induction t as [|c t IH]; [reflexivity|].
  destruct (f_cases c t) as [(rest & -> & -> & E)|E].
  - now rewrite E.
  - rewrite E.
    change (skip_blanks (c :: f t))
      with (if is_blank c then skip_blanks (f t) else c :: f t).
    change (skip_blanks (c :: t))
      with (if is_blank c then skip_blanks t else c :: t).
    destruct (is_blank c); [exact IH|now rewrite E].
Qed.

Lemma starts_with_equals_f (t : text) :
  starts_with_equals (f t) = starts_with_equals t.
Proof.
  destruct t as [|c t]; [reflexivity|].
  destruct (f_cases c t) as [(rest & -> & -> & E)|E]; now rewrite E.
Qed.

Lemma decl_head_f_none (t : text) :
  decl_head t = None -> decl_head (f t) = None.
Proof.
  unfold decl_head; rewrite lit_f by reflexivity.
  destruct (lit NAME t) as [r|]; [|reflexivity].
  cbv beta iota delta [option_map]; rewrite skip_blanks_f.
  destruct (skip_blanks r) as [|c v]; [reflexivity|].
  destruct (f_cases c v) as [(rest & -> & -> & E)|E]; rewrite E.
  - reflexivity.
  - rewrite starts_with_equals_f.
    now destruct ((c =? EQUALS) && negb (starts_with_equals v)).
Qed.

Lemma decls_from_cons (b : bool) (c : char) (t : text) :
  decls_from b (c :: t) =
  (if b then match decl_head (c :: t) with Some v => [v] | None => [] end
   else []) ++ decls_from (is_break c) t.
Proof. reflexivity. Qed.

Lemma decls_from_f_nil (b : bool) (t : text) :
  decls_from b t = [] -> decls_from b (f t) = [].
Proof.
  remember (length t) as n eqn:Hn.
  revert b t Hn; induction n as [n IH] using lt_wf_ind; intros b t Hn D.
  destruct t as [|c t]; [reflexivity|].
  rewrite decls_from_cons in D; apply app_eq_nil in D as [D1 D2].
  destruct (f_cases c t) as [(rest & -> & -> & E)|E]; rewrite E.
  - change (R ++ f rest) with (123 :: R' ++ f rest).
    rewrite decls_from_cons.
    change (decl_head (123 :: R' ++ f rest)) with (@None text).
    rewrite decls_from_unbroken by assumption.
    change (is_break 123) with false in *.
    rewrite decls_from_unbroken in D2 by reflexivity.
    assert (decls_from false (f rest) = []) as ->.
    { apply (IH (length rest)); [|reflexivity|assumption].
      subst n; change (123 :: PLACEHOLDER_TAIL ++ rest)
        with (PLACEHOLDER ++ rest).
      rewrite length_app; simpl; lia. }
    now destruct b.
  - rewrite decls_from_cons.
    rewrite (IH (length t)); [|subst n; simpl; lia|reflexivity|assumption].
    rewrite app_nil_r; destruct b; [|reflexivity].
    rewrite <- E, decl_head_f_none; [reflexivity|].
    now destruct (decl_head (c :: t)).
Qed.

End PlaceholderLines.

(* ===================================================================== *)
(** * The record of an SPA name *)
(* ===================================================================== *)

Lemma lit_agree (q a b r : text) : lit q (a ++ b) = Some r -> agree q a = true.
Proof.
  revert a; induction q as [|x q IH]; intros [|c a] E; try reflexivity.
  change (lit (x :: q) ((c :: a) ++ b))
    with (if x =? c then lit q (a ++ b) else None) in E.
  simpl; destruct (x =? c); [now apply IH|discriminate].
Qed.

Lemma occurs_no_start (q a b : text) :
  no_start q a = true -> occurs q (a ++ b) = occurs q b.
Proof.
  induction a as [|c a IH]; intros E; [reflexivity|].
  simpl in E; apply andb_prop in E as [Hc Ha].
  rewrite occurs_eqn.
  destruct (lit q ((c :: a) ++ b)) eqn:L.
  - apply lit_agree in L; simpl in L; rewrite L in Hc; discriminate.
  - now apply IH.
Qed.

(** The record as one text: [{'from_route': '/NAME/<path:app_path>',
    'to_route': 'NAME'}]. *)
Lemma rule_text (spa : text) :
  rule spa =
  py "{'from_route': '/" ++ spa ++ py "/<path:app_path>', 'to_route': '"
  ++ spa ++ py "'}".
Proof. unfold rule; now rewrite <- !app_assoc. Qed.


(** Replacing placeholders by the record adds no declaration. *)
Lemma rule_unbroken (spa : text) :
  unbroken spa = true -> unbroken (rule spa) = true.
Proof. intros E; rewrite rule_text; now rewrite !unbroken_app, E. Qed.

Lemma decls_from_replace_rule (b : bool) (spa t : text) :
  unbroken spa = true -> decls_from b t = [] ->
  decls_from b (str_replace PLACEHOLDER (rule spa) t) = [].
Proof.
  intros L D; rewrite rule_text.
  apply (decls_from_f_nil
           (py "'from_route': '/" ++ spa
            ++ py "/<path:app_path>', 'to_route': '" ++ spa ++ py "'}"));
    [|assumption].
  now rewrite !unbroken_app, L.
Qed.


Lemma plain_unbroken (s : text) : plain s = true -> unbroken s = true.
Proof.
  unfold plain, unbroken; induction s as [|c s IH]; [reflexivity|]; simpl.
  intros E; apply andb_prop in E as [Hc Hs]; rewrite (IH Hs), andb_true_r.
  unfold plain_char in Hc; rewrite !negb_orb in Hc.
  now apply andb_prop in Hc as [_ Hc].
Qed.

Lemma sq_body_plain (v r : text) :
  plain v = true -> sq_body (v ++ QUOTE :: r) = Some (v, r).
Proof.
  induction v as [|c v IH]; intros E; [reflexivity|].
  simpl in E; apply andb_prop in E as [Hc Hv].
  change ((c :: v) ++ QUOTE :: r) with (c :: v ++ QUOTE :: r).
  unfold plain_char in Hc; rewrite !negb_orb in Hc.
  apply andb_prop in Hc as [Hc Hn]; apply andb_prop in Hc as [Hq Hb].
  apply negb_true_iff in Hq, Hb, Hn.
  change (sq_body (c :: v ++ QUOTE :: r))
    with (if c =? QUOTE then Some ([], v ++ QUOTE :: r)
          else if is_break c then None
          else if c =? BACKSLASH then
            match v ++ QUOTE :: r with
            | [] => None
            | e :: s'' =>
                match escape e, sq_body s'' with
                | Some v', Some (g, r') => Some (v' ++ g, r')
                | _, _ => None
                end
            end
          else
            match sq_body (v ++ QUOTE :: r) with
            | Some (g, r') => Some (c :: g, r')
            | None => None
            end).
  now rewrite Hq, Hb, Hn, (IH Hv).
Qed.

Lemma sq_string_plain (v r : text) :
  plain v = true -> sq_string (QUOTE :: v ++ QUOTE :: r) = Some (v, r).
Proof. intros E; unfold sq_string; simpl; now apply sq_body_plain. Qed.

Lemma text_eqb_refl (a : text) : text_eqb a a = true.
Proof. unfold text_eqb; now destruct (list_eq_dec N.eq_dec a a). Qed.

Lemma key_value_plain (key v r : text) :
  plain key = true -> plain v = true ->
  key_value key (QUOTE :: key ++ QUOTE :: py ": " ++ QUOTE :: v ++ QUOTE :: r)
  = Some (v, r).
Proof.
  intros Hk Hv; unfold key_value.
  rewrite sq_string_plain by assumption.
  cbv beta iota delta [bind_opt fst snd].
  rewrite text_eqb_refl.
  change (lit (py ":") (skip_blanks (py ": " ++ QUOTE :: v ++ QUOTE :: r)))
    with (Some (32 :: QUOTE :: v ++ QUOTE :: r)).
  cbv beta iota.
  change (skip_blanks (32 :: QUOTE :: v ++ QUOTE :: r))
    with (QUOTE :: v ++ QUOTE :: r).
  now apply sq_string_plain.
Qed.

Lemma rule_tokens (spa : text) :
  rule spa =
  py "{" ++ QUOTE :: py "from_route" ++ QUOTE :: py ": "
  ++ QUOTE :: (py "/" ++ spa ++ py "/<path:app_path>") ++ QUOTE :: py ", "
  ++ QUOTE :: py "to_route" ++ QUOTE :: py ": " ++ QUOTE :: spa
  ++ QUOTE :: py "}".
Proof. unfold rule; now rewrite <- !app_assoc. Qed.

(** Reading the written record back gives the rule of the SPA name, when
    the name needs no escaping. *)
Lemma parse_record_rule (spa rest : text) :
  plain spa = true ->
  parse_record (rule spa ++ rest) = Some (rule_of_spa spa, rest).
Proof.
  intros E; rewrite rule_tokens; unfold parse_record.
  rewrite <- app_assoc, lit_app.
  cbv beta iota delta [bind_opt].
  set (from := py "/" ++ spa ++ py "/<path:app_path>").
  assert (Hf : plain from = true).
  { unfold from, plain in *; now rewrite !forallb_app, E. }
  change (skip_blanks ?x) with x at 1.
  change ((QUOTE :: ?a) ++ rest) with (QUOTE :: a ++ rest).
  repeat (rewrite <- app_assoc;
          change ((QUOTE :: ?a) ++ rest) with (QUOTE :: a ++ rest)).
  rewrite key_value_plain by (reflexivity || assumption).
  cbv beta iota delta [fst snd].
  change (lit (py ",") (skip_blanks (py ", " ++ ?x))) with (Some (32 :: x)).
  cbv beta iota.
  change (skip_blanks (32 :: QUOTE :: ?x)) with (QUOTE :: x).
  rewrite key_value_plain by (reflexivity || assumption).
  cbv beta iota delta [fst snd].
  reflexivity.
Qed.

Lemma skip_blanks_rule (spa rest : text) :
  skip_blanks (rule spa ++ rest) = rule spa ++ rest.
Proof. rewrite rule_text; reflexivity. Qed.

Lemma first_record_rule (spa rest : text) :
  plain spa = true ->
  first_record (py "[" ++ rule spa ++ rest) = Some (rule_of_spa spa, rest).
Proof.
  intros E; unfold first_record.
  change (lit [LBRACKET] (py "[" ++ rule spa ++ rest))
    with (Some (rule spa ++ rest)).
  cbv beta iota delta [bind_opt].
  rewrite skip_blanks_rule.
  now apply parse_record_rule.
Qed.

(* ===================================================================== *)
(** * Lines of the form the pattern recognises *)
(* ===================================================================== *)


Lemma recognised_inv (ws1 ws2 g : text) :
  recognised ws1 ws2 g = true ->
  opt_ws ws1 = true /\ opt_ws ws2 = true /\ g <> [] /\ one_line g = true
  /\ occurs PLACEHOLDER g = false.
Proof.
  unfold recognised; intros E.
  apply andb_prop in E as [E E5]; apply andb_prop in E as [E E4].
  apply andb_prop in E as [E E3]; apply andb_prop in E as [E1 E2].
  apply negb_true_iff in E5.
  repeat split; try assumption.
  now destruct g.
Qed.

Lemma declarations_fresh (hooks V : text) :
  unbroken V = true ->
  declarations (hooks ++ nl :: py "website_route_rules = [" ++ V ++ py ",]") =
  declarations hooks ++ [py "[" ++ V ++ py ",]"].
Proof.
  intros HV; unfold declarations at 1; rewrite decls_from_app_nl.
  fold (declarations hooks); f_equal.
  change (py ",]") with (py "," ++ py "]" ++ []).
  rewrite !(app_assoc V).
  apply (declarations_written (V ++ py ",") []); [|reflexivity].
  now rewrite unbroken_app, HV.
Qed.

Lemma bol_snoc (t : text) : bol (t ++ [nl]) = true.
Proof.
  unfold bol; destruct (t ++ [nl]) eqn:E.
  - reflexivity.
  - rewrite <- E, last_last; reflexivity.
Qed.

Lemma declaration_app (ws1 ws2 g tail : text) :
  declaration ws1 ws2 g ++ tail =
  NAME ++ ws1 ++ EQUALS :: ws2 ++ LBRACKET :: g ++ RBRACKET :: tail.
Proof.
  unfold declaration.
  repeat (rewrite <- app_assoc || rewrite <- app_comm_cons); reflexivity.
Qed.





(** What is rewritten keeps its line structure at both ends. *)
Lemma rewritten_bol (spa pre : text) :
  bol pre = true -> bol (rewritten spa pre) = true.
Proof.
  intros Hb; destruct (bol_inv _ Hb) as [->|[p ->]]; [reflexivity|].
  unfold rewritten.
  rewrite (re_sub_app_nl TEMPLATE p []) by reflexivity.
  change (nl :: re_sub TEMPLATE []) with [nl].
  rewrite ph_app by reflexivity.
  apply bol_snoc.
Qed.





(* ===================================================================== *)
(** * What the pattern takes *)
(* ===================================================================== *)

Lemma closes_on_line_spec (s : text) :
  dot_star_close s = None <-> closes_on_line s = false.
Proof.
  induction s as [|c s IH]; simpl; [now split|].
  destruct (is_dot c); [|now split].
  destruct (dot_star_close s) as [[g r]|].
  - split; [discriminate|].
    intros E; apply orb_false_elim in E as [_ E].
    now apply IH in E.
  - destruct (c =? RBRACKET); simpl; [now split|].
    split; [intros _; now apply IH|reflexivity].
Qed.

Lemma dot_star_close_inv (s g r : text) :
  dot_star_close s = Some (g, r) ->
  s = g ++ RBRACKET :: r /\ one_line g = true /\ dot_star_close r = None.
Proof.
  revert g; induction s as [|c s IH]; intros g E; simpl in E; [discriminate|].
  destruct (is_dot c) eqn:Hc; [|discriminate].
  destruct (dot_star_close s) as [[g' r']|] eqn:D.
  - inversion E; subst; destruct (IH _ eq_refl) as (-> & Hl & Hr).
    repeat split; [|assumption].
    unfold one_line; simpl; now rewrite Hc.
  - destruct (N.eqb_spec c RBRACKET) as [->|]; [|discriminate].
    inversion E; subst; now repeat split.
Qed.

Lemma dot_plus_close_inv (s g r : text) :
  dot_plus_close s = Some (g, r) ->
  s = g ++ RBRACKET :: r /\ g <> [] /\ one_line g = true
  /\ dot_star_close r = None.
Proof.
  destruct s as [|c s]; simpl; [discriminate|].
  destruct (is_dot c) eqn:Hc; [|discriminate].
  destruct (dot_star_close s) as [[g' r']|] eqn:D; [|discriminate].
  intros E; inversion E; subst.
  apply dot_star_close_inv in D as (-> & Hl & Hr).
  repeat split; [discriminate| |assumption].
  unfold one_line; simpl; now rewrite Hc.
Qed.

Lemma opt_space_inv {A : Type} (k : text -> option A) (s : text) (a : A) :
  opt_space k s = Some a ->
  exists ws s', s = ws ++ s' /\ opt_ws ws = true /\ k s' = Some a.
Proof.
  destruct s as [|c s]; simpl.
  - intros E; now exists [], [].
  - destruct (is_space c) eqn:Hc.
    + destruct (k s) as [a'|] eqn:K.
      * intros E; inversion E; subst; now exists [c], s.
      * intros E; now exists [], (c :: s).
    + intros E; now exists [], (c :: s).
Qed.

Lemma space_is_no_token (c : char) :
  is_space c = true -> (EQUALS =? c) = false /\ (LBRACKET =? c) = false.
Proof.
  intros E; split.
  - destruct (N.eqb_spec EQUALS c) as [<-|]; [discriminate|reflexivity].
  - destruct (N.eqb_spec LBRACKET c) as [<-|]; [discriminate|reflexivity].
Qed.

(** [\s?] before a token: the white space is skipped and nothing else can
    happen, since white space is not the token. *)
Lemma opt_space_token {A : Type} (x : char) (k : text -> option A)
    (ws s : text) :
  opt_ws ws = true -> is_space x = false ->
  (forall c, is_space c = true -> (x =? c) = false) ->
  opt_space (fun s1 => bind_opt (lit [x] s1) k) (ws ++ x :: s) = k s.
Proof.
  intros Hw Hx Hc.
  assert (E : bind_opt (lit [x] (x :: s)) k = k s).
  { change (lit [x] (x :: s)) with (if x =? x then Some s else None).
    now rewrite N.eqb_refl. }
  destruct ws as [|c [|c' ws]]; [| |discriminate].
  - change (opt_space (fun s1 => bind_opt (lit [x] s1) k) ([] ++ x :: s))
      with (if is_space x
            then match bind_opt (lit [x] s) k with
                 | Some r => Some r
                 | None => bind_opt (lit [x] (x :: s)) k
                 end
            else bind_opt (lit [x] (x :: s)) k).
    now rewrite Hx.
  - simpl in Hw.
    change (opt_space (fun s1 => bind_opt (lit [x] s1) k) ([c] ++ x :: s))
      with (if is_space c
            then match bind_opt (lit [x] (x :: s)) k with
                 | Some r => Some r
                 | None => bind_opt (lit [x] (c :: x :: s)) k
                 end
            else bind_opt (lit [x] (c :: x :: s)) k).
    rewrite Hw, E.
    destruct (k s); [reflexivity|].
    change (lit [x] (c :: x :: s)) with (if x =? c then Some (x :: s) else None).
    now rewrite (Hc c Hw).
Qed.

(** After the name, the white space, [=] and the opening bracket, all is
    decided by what follows the bracket. *)
Lemma match_here_opening (ws1 ws2 X : text) :
  opt_ws ws1 = true -> opt_ws ws2 = true ->
  match_here (opening ws1 ws2 ++ X) = dot_plus_close X.
Proof.
  intros H1 H2; unfold match_here, opening.
  rewrite <- !app_assoc, lit_app.
  unfold bind_opt at 1.
  change ((EQUALS :: ws2 ++ [LBRACKET]) ++ X)
    with (EQUALS :: (ws2 ++ [LBRACKET]) ++ X).
  rewrite opt_space_token;
    [|assumption|reflexivity|intros c Hc; now apply space_is_no_token].
  rewrite <- app_assoc; change ([LBRACKET] ++ X) with (LBRACKET :: X).
  now rewrite opt_space_token;
    [|assumption|reflexivity|intros c Hc; now apply space_is_no_token].
Qed.

Lemma declaration_opening (ws1 ws2 g r : text) :
  declaration ws1 ws2 g ++ r = opening ws1 ws2 ++ g ++ RBRACKET :: r.
Proof.
  unfold declaration, opening.
  repeat (rewrite <- app_assoc || rewrite <- app_comm_cons); reflexivity.
Qed.

Lemma dot_plus_close_intro (g r : text) :
  g <> [] -> one_line g = true -> closes_on_line r = false ->
  dot_plus_close (g ++ RBRACKET :: r) = Some (g, r).
Proof.
  intros Hg Hl Hr; destruct g as [|c g]; [contradiction|].
  simpl in Hl; apply andb_prop in Hl as [Hc Hl].
  change ((c :: g) ++ RBRACKET :: r) with (c :: g ++ RBRACKET :: r).
  unfold dot_plus_close; rewrite Hc.
  now rewrite dot_star_close_intro by (assumption || now apply closes_on_line_spec).
Qed.

(* ===================================================================== *)
(** * A declaration in its text *)
(* ===================================================================== *)

(** [.*\]] after a span: the span is taken, and with it what follows up
    to the last closing bracket of the line. *)
Lemma dot_star_close_span (g tail : text) :
  one_line g = true ->
  exists G y r,
    dot_star_close (g ++ RBRACKET :: tail) = Some (G, r)
    /\ G ++ [RBRACKET] = g ++ RBRACKET :: y
    /\ tail = y ++ r
    /\ (closes_on_line tail = false -> y = [] /\ r = tail).
Proof.
  induction g as [|c g IH]; intros Hl.
  - change ([] ++ RBRACKET :: tail) with (RBRACKET :: tail).
    change (dot_star_close (RBRACKET :: tail))
      with (match dot_star_close tail with
            | Some (g', r) => Some (RBRACKET :: g', r)
            | None => Some ([], tail)
            end).
    destruct (dot_star_close tail) as [[g' r]|] eqn:D.
    + pose proof (dot_star_close_inv _ _ _ D) as (T & _ & _).
      exists (RBRACKET :: g'), (g' ++ [RBRACKET]), r.
      split; [reflexivity|split; [reflexivity|split]].
      * now rewrite <- app_assoc.
      * intros C; apply closes_on_line_spec in C; congruence.
    + exists [], [], tail.
      split; [reflexivity|split; [reflexivity|split; [reflexivity|now split]]].
  - simpl in Hl; apply andb_prop in Hl as [Hc Hl].
    destruct (IH Hl) as (G & y & r & D & E & T & X).
    exists (c :: G), y, r.
    change ((c :: g) ++ RBRACKET :: tail) with (c :: g ++ RBRACKET :: tail).
    change (dot_star_close (c :: g ++ RBRACKET :: tail))
      with (if is_dot c
            then match dot_star_close (g ++ RBRACKET :: tail) with
                 | Some (g0, r0) => Some (c :: g0, r0)
                 | None => if c =? RBRACKET
                           then Some ([], g ++ RBRACKET :: tail) else None
                 end
            else None).
    rewrite Hc, D.
    split; [reflexivity|split; [|split; assumption]].
    change ((c :: G) ++ [RBRACKET]) with (c :: G ++ [RBRACKET]); now rewrite E.
Qed.

(** The pattern at a declaration: group 1 is the span and what follows it
    up to the last closing bracket of the line. *)
Lemma match_here_span (ws1 ws2 g tail : text) :
  opt_ws ws1 = true -> opt_ws ws2 = true -> g <> [] -> one_line g = true ->
  exists G y r,
    match_here (declaration ws1 ws2 g ++ tail) = Some (G, r)
    /\ G ++ [RBRACKET] = g ++ RBRACKET :: y
    /\ tail = y ++ r
    /\ (closes_on_line tail = false -> y = [] /\ r = tail).
Proof.
  intros H1 H2 Hg Hl.
  rewrite declaration_opening, match_here_opening by assumption.
  destruct g as [|c g]; [contradiction|].
  simpl in Hl; apply andb_prop in Hl as [Hc Hl].
  destruct (dot_star_close_span g tail Hl) as (G & y & r & D & E & T & X).
  exists (c :: G), y, r.
  change ((c :: g) ++ RBRACKET :: tail) with (c :: g ++ RBRACKET :: tail).
  unfold dot_plus_close; rewrite Hc, D.
  split; [reflexivity|split; [|split; assumption]].
  change ((c :: G) ++ [RBRACKET]) with (c :: G ++ [RBRACKET]); now rewrite E.
Qed.

Lemma re_search_suffix (y r : text) :
  re_search (y ++ r) = false -> re_search r = false.
Proof.
  intros E; destruct (re_search r) eqn:R; [|reflexivity].
  now rewrite (re_search_app_r y r R) in E.
Qed.

(** What an injection makes of a declaration and the text after it: the
    record goes in front of the span; after the span, the text is
    rewritten like any other, unless the line closes again, in which case
    the pattern took more of it. *)
Lemma rewritten_declaration (ws1 ws2 g tail spa : text) :
  recognised ws1 ws2 g = true ->
  exists rest,
    rewritten spa (declaration ws1 ws2 g ++ tail) =
    py "website_route_rules = [" ++ rule spa ++ py ", " ++ g ++ py "]" ++ rest
    /\ re_search (declaration ws1 ws2 g ++ tail) = true
    /\ (closes_on_line tail = false \/ re_search tail = false ->
        rest = rewritten spa tail).
Proof.
  intros Hr; apply recognised_inv in Hr as (H1 & H2 & Hg & Hl & Hp).
  destruct (match_here_span ws1 ws2 g tail H1 H2 Hg Hl)
    as (G & y & r & M & E & T & X).
  exists (str_replace PLACEHOLDER (rule spa) (y ++ re_sub TEMPLATE r)).
  split; [|split].
  - unfold rewritten; rewrite re_sub_eqn, M.
    generalize (rule spa) as R; intros R.
    change (expand TEMPLATE G)
      with (py "website_route_rules = [" ++ PLACEHOLDER
            ++ (py ", " ++ G) ++ py "]" ++ []).
    rewrite app_nil_r, <- !app_assoc.
    change (py "]" ++ re_sub TEMPLATE r) with ([RBRACKET] ++ re_sub TEMPLATE r).
    rewrite (app_assoc G), E, <- app_assoc.
    change ((RBRACKET :: y) ++ re_sub TEMPLATE r)
      with (RBRACKET :: y ++ re_sub TEMPLATE r).
    rewrite ph_absent_app by reflexivity.
    rewrite ph_hit.
    rewrite (app_assoc (py ", ") g).
    rewrite ph_absent_app; [| |reflexivity].
    2:{ change (py ", " ++ g) with (44 :: 32 :: g).
        now rewrite !ph_occurs_cons by reflexivity. }
    rewrite (ph_eqn R (RBRACKET :: y ++ re_sub TEMPLATE r)).
    change (lit PLACEHOLDER (RBRACKET :: y ++ re_sub TEMPLATE r))
      with (@None text).
    cbv beta iota.
    now rewrite <- !app_assoc.
  - rewrite re_search_eqn; now rewrite M.
  - intros [C|S].
    + destruct (X C) as [-> ->]; reflexivity.
    + unfold rewritten; rewrite (re_sub_absent TEMPLATE tail S).
      rewrite T in S; apply re_search_suffix in S.
      now rewrite (re_sub_absent TEMPLATE r S), T.
Qed.

Lemma updates_hooks_matched (hooks spa : text) :
  re_search hooks = true -> updates_hooks hooks spa = rewritten spa hooks.
Proof. intros E; unfold updates_hooks, rules, rewritten; now rewrite E. Qed.

(** ** The text before the declaration *)

Lemma lit_cons (a c : char) (p s : text) :
  lit (a :: p) (c :: s) = if a =? c then lit p s else None.
Proof. reflexivity. Qed.

Lemma lit_before_w (q x y : text) :
  forallb (fun c => negb (119 =? c)) q = true ->
  lit q (x ++ 119 :: y) = option_map (fun r => r ++ 119 :: y) (lit q x).
Proof.
  revert x; induction q as [|c q IH]; intros x Hq; [reflexivity|].
  cbn [forallb] in Hq; apply andb_prop in Hq as [Hc Hq].
  apply negb_true_iff in Hc; rewrite N.eqb_sym in Hc.
  destruct x as [|d x].
  - change ([] ++ 119 :: y) with (119 :: y).
    now rewrite lit_cons, Hc.
  - change ((d :: x) ++ 119 :: y) with (d :: x ++ 119 :: y).
    rewrite !lit_cons; destruct (c =? d); [now apply IH|reflexivity].
Qed.

(** The name does not overlap itself: before an occurrence of it, it can
    only start where it fits whole. *)
Lemma lit_NAME_before (a X : text) :
  a <> [] ->
  lit NAME (a ++ NAME ++ X) = option_map (fun r => r ++ NAME ++ X) (lit NAME a).
Proof.
  intros Ha; destruct a as [|d a]; [contradiction|].
  change NAME with (119 :: py "ebsite_route_rules").
  change ((d :: a) ++ (119 :: py "ebsite_route_rules") ++ X)
    with (d :: a ++ 119 :: py "ebsite_route_rules" ++ X).
  rewrite !lit_cons; destruct (119 =? d); [|reflexivity].
  now apply lit_before_w.
Qed.

Lemma match_here_before (a X : text) :
  a <> [] -> lit NAME a = None -> match_here (a ++ NAME ++ X) = None.
Proof.
  intros Ha L; unfold match_here; now rewrite lit_NAME_before, L.
Qed.

Lemma occurs_cons_false (q s : text) (c : char) :
  occurs q (c :: s) = false -> lit q (c :: s) = None /\ occurs q s = false.
Proof.
  rewrite occurs_eqn; destruct (lit q (c :: s)); [discriminate|now split].
Qed.

(** Text in which the name does not occur is passed over by the
    substitution. *)
Lemma re_sub_prefix (tpl : list tpl_item) (a X : text) :
  occurs NAME a = false ->
  re_sub tpl (a ++ NAME ++ X) = a ++ re_sub tpl (NAME ++ X).
Proof.
  induction a as [|c a IH]; intros E; [reflexivity|].
  apply occurs_cons_false in E as [L E].
  rewrite re_sub_eqn, match_here_before by (assumption || discriminate).
  change ((c :: a) ++ NAME ++ X) with (c :: a ++ NAME ++ X); cbv iota.
  now rewrite IH.
Qed.

Lemma re_sub_NAME_head (X : text) :
  exists Y, re_sub TEMPLATE (NAME ++ X) = 119 :: Y.
Proof.
  rewrite re_sub_eqn.
  destruct (match_here (NAME ++ X)) as [[g r]|].
  - change (expand TEMPLATE g)
      with (py "website_route_rules = [{rule}, " ++ g ++ py "]" ++ []).
    eexists; reflexivity.
  - eexists; reflexivity.
Qed.

Lemma head_outside_app (q u v : text) :
  u <> [] -> head_outside q (u ++ v) = head_outside q u.
Proof. intros Hu; destruct u; [contradiction|reflexivity]. Qed.

(** A line feed ends what the replacement can take. *)
Lemma ph_app_nl (R p b : text) :
  str_replace PLACEHOLDER R (p ++ nl :: b) =
  str_replace PLACEHOLDER R p ++ nl :: str_replace PLACEHOLDER R b.
Proof.
  rewrite ph_app by reflexivity.
  now rewrite (ph_eqn R (nl :: b)).
Qed.

Lemma ph_app_bol (R pre b : text) :
  bol pre = true ->
  str_replace PLACEHOLDER R (pre ++ b) =
  str_replace PLACEHOLDER R pre ++ str_replace PLACEHOLDER R b.
Proof.
  intros Hb; destruct (bol_inv _ Hb) as [->|[p ->]]; [reflexivity|].
  rewrite <- app_assoc; change ([nl] ++ b) with (nl :: b).
  rewrite ph_app_nl, (ph_app_nl R p []).
  now rewrite <- app_assoc.
Qed.

Lemma re_sub_bol_bol (tpl : list tpl_item) (pre : text) :
  bol pre = true -> bol (re_sub tpl pre) = true.
Proof.
  intros Hb; destruct (bol_inv _ Hb) as [->|[p ->]]; [reflexivity|].
  rewrite (re_sub_app_nl tpl p []) by reflexivity.
  change (nl :: re_sub tpl []) with [nl]; apply bol_snoc.
Qed.

(** A line of the text, from its start: [pre] ends the line before, [a] is
    what stands on the line before the name. *)
Lemma rewritten_line (pre a X spa : text) :
  bol pre = true -> plain_start (a ++ NAME) = true -> occurs NAME a = false ->
  rewritten spa (pre ++ a ++ NAME ++ X) =
  rewritten spa pre ++ str_replace PLACEHOLDER (rule spa) a
  ++ rewritten spa (NAME ++ X).
Proof.
  intros Hb Hs Ha; unfold rewritten.
  rewrite re_sub_bol; [|assumption|].
  2:{ unfold plain_start in *; rewrite app_assoc, head_outside_app; [assumption|].
      now destruct a. }
  rewrite re_sub_prefix by assumption.
  rewrite ph_app_bol by now apply re_sub_bol_bol.
  destruct (re_sub_NAME_head X) as [Y ->].
  now rewrite ph_app by reflexivity.
Qed.

(** One injection on a line that holds a declaration. *)
Lemma injected_line (pre a ws1 ws2 g tail spa : text) :
  bol pre = true -> plain_start (a ++ NAME) = true -> occurs NAME a = false ->
  recognised ws1 ws2 g = true ->
  exists rest,
    updates_hooks (pre ++ a ++ declaration ws1 ws2 g ++ tail) spa =
    rewritten spa pre ++ str_replace PLACEHOLDER (rule spa) a
    ++ py "website_route_rules = [" ++ rule spa ++ py ", " ++ g ++ py "]"
    ++ rest
    /\ (closes_on_line tail = false \/ re_search tail = false ->
        rest = rewritten spa tail).
Proof.
  intros Hb Hs Ha Hr.
  destruct (rewritten_declaration ws1 ws2 g tail spa Hr) as (rest & E & S & X).
  exists rest; split; [|exact X].
  rewrite updates_hooks_matched by now apply re_search_app_r, re_search_app_r.
  rewrite <- E.
  rewrite declaration_app.
  now apply rewritten_line.
Qed.


(** The line the generator writes, read as a declaration: its value is
    the text from the bracket to the end of the line. *)
Lemma decl_head_line (W : text) :
  decl_head (py "website_route_rules = [" ++ W) = Some (py "[" ++ take_line W).
Proof.
  change (py "website_route_rules = [" ++ W) with (NAME ++ py " = [" ++ W).
  unfold decl_head; rewrite lit_app.
  change (skip_blanks (py " = [" ++ W)) with (EQUALS :: py " [" ++ W).
  cbv beta iota.
  change ((EQUALS =? EQUALS) && negb (starts_with_equals (py " [" ++ W)))
    with true.
  change (skip_blanks (py " [" ++ W)) with (py "[" ++ W).
  reflexivity.
Qed.

(* ===================================================================== *)
(** * The assignments of a text *)
(* ===================================================================== *)

Lemma assignments_cons (c : char) (t : text) :
  assignments (c :: t) =
  match assign_head (c :: t) with
  | Some v => [v]
  | None => []
  end ++ assignments t.
Proof. reflexivity. Qed.

Lemma assignments_nil_cons (c : char) (t : text) :
  assignments (c :: t) = [] <->
  assign_head (c :: t) = None /\ assignments t = [].
Proof.
  rewrite assignments_cons; split.
  - intros E; apply app_eq_nil in E as [E1 E2]; split; [|exact E2].
    now destruct (assign_head (c :: t)).
  - now intros [-> ->].
Qed.

Lemma assignments_suffix (a b : text) :
  assignments (a ++ b) = [] -> assignments b = [].
Proof.
  induction a as [|c a IH]; intros E; [exact E|].
  apply IH; now apply (assignments_nil_cons c (a ++ b)) in E.
Qed.

(** Where the name cannot start, nothing is assigned. *)
Lemma assignments_skip (u v : text) :
  no_start NAME u = true -> assignments (u ++ v) = assignments v.
Proof.
  induction u as [|c u IH]; intros E; [reflexivity|].
  change (no_start NAME (c :: u))
    with (negb (agree NAME (c :: u)) && no_start NAME u) in E.
  apply andb_prop in E as [Hc Hu].
  change ((c :: u) ++ v) with (c :: u ++ v).
  rewrite assignments_cons, (IH Hu); unfold assign_head.
  destruct (lit NAME (c :: u ++ v)) eqn:L; [|reflexivity].
  apply (lit_agree NAME (c :: u) v) in L.
  apply negb_true_iff in Hc; rewrite L in Hc; discriminate.
Qed.

Lemma skip_spaces_app_nl (r Y : text) :
  skip_spaces (r ++ nl :: Y) =
  match skip_spaces r with
  | [] => skip_spaces Y
  | c :: v => c :: v ++ nl :: Y
  end.
Proof.
  induction r as [|c r IH]; [reflexivity|].
  change ((c :: r) ++ nl :: Y) with (c :: r ++ nl :: Y); simpl.
  now destruct (is_space c || (c =? BACKSLASH)).
Qed.

Lemma skip_spaces_stop (r : text) (e : char) (Y : text) :
  is_space e || (e =? BACKSLASH) = false ->
  skip_spaces (r ++ e :: Y) = skip_spaces r ++ e :: Y.
Proof.
  intros He; induction r as [|c r IH].
  - change ([] ++ e :: Y) with (e :: Y); simpl; now rewrite He.
  - change ((c :: r) ++ e :: Y) with (c :: r ++ e :: Y); simpl.
    now destruct (is_space c || (c =? BACKSLASH)).
Qed.

Lemma starts_with_equals_app (v : text) (e : char) (Y : text) :
  (e =? EQUALS) = false ->
  starts_with_equals (v ++ e :: Y) = starts_with_equals (v ++ [e]).
Proof. intros He; now destruct v. Qed.

(** Whether a place assigns the variable is settled before the end of
    its line, when the next line starts with neither [=] nor [:]. *)
Lemma assign_head_app_nl (p Y : text) :
  match skip_spaces Y with
  | c :: _ => (c =? EQUALS) || (c =? COLON)
  | [] => false
  end = false ->
  assign_head (p ++ nl :: Y) = None <-> assign_head p = None.
Proof.
  intros HY; unfold assign_head.
  rewrite (lit_app_outside NAME p (nl :: Y)) by reflexivity.
  destruct (lit NAME p) as [r|]; [|tauto].
  cbv beta delta [option_map] iota; rewrite skip_spaces_app_nl.
  destruct (skip_spaces r) as [|c v].
  - destruct (skip_spaces Y) as [|c' v']; [tauto|].
    cbv beta iota in HY |- *.
    destruct (c' =? EQUALS), (c' =? COLON); try discriminate; simpl; tauto.
  - assert (starts_with_equals (v ++ nl :: Y) = starts_with_equals v) as ->
      by now destruct v.
    destruct ((c =? EQUALS) && negb (starts_with_equals v) || (c =? COLON));
      split; intros; try discriminate; reflexivity.
Qed.

(** The same after a closing brace, whatever follows. *)
Lemma assign_head_app_brace (p Y : text) :
  assign_head (p ++ RBRACE :: Y) = None <->
  assign_head (p ++ [RBRACE]) = None.
Proof.
  unfold assign_head.
  rewrite (lit_app_outside NAME p (RBRACE :: Y)) by reflexivity.
  rewrite (lit_app_outside NAME p [RBRACE]) by reflexivity.
  destruct (lit NAME p) as [r|]; [|tauto].
  cbv beta delta [option_map] iota; rewrite !skip_spaces_stop by reflexivity.
  destruct (skip_spaces r) as [|c v]; [tauto|].
  change ((c :: v) ++ RBRACE :: Y) with (c :: v ++ RBRACE :: Y).
  change ((c :: v) ++ [RBRACE]) with (c :: v ++ [RBRACE]).
  cbv iota.
  rewrite (starts_with_equals_app v RBRACE Y) by reflexivity.
  destruct ((c =? EQUALS) && negb (starts_with_equals (v ++ [RBRACE]))
            || (c =? COLON));
    split; intros; try discriminate; reflexivity.
Qed.

Lemma assignments_before_nl (p : text) :
  assignments p = [] -> assignments (p ++ [nl]) = [].
Proof.
  induction p as [|c p IH]; intros E; [reflexivity|].
  apply assignments_nil_cons in E as [E1 E2].
  change ((c :: p) ++ [nl]) with (c :: p ++ [nl]).
  apply assignments_nil_cons; split; [|now apply IH].
  now apply (assign_head_app_nl (c :: p) []).
Qed.

Lemma assignments_after_nl (p Y : text) :
  match skip_spaces Y with
  | c :: _ => (c =? EQUALS) || (c =? COLON)
  | [] => false
  end = false ->
  assignments (p ++ [nl]) = [] ->
  assignments (p ++ nl :: Y) = assignments Y.
Proof.
  intros HY; induction p as [|c p IH]; intros E; [reflexivity|].
  change ((c :: p) ++ [nl]) with (c :: p ++ [nl]) in E.
  apply assignments_nil_cons in E as [E1 E2].
  change ((c :: p) ++ nl :: Y) with (c :: p ++ nl :: Y).
  rewrite assignments_cons, (IH E2).
  assert (assign_head (c :: p ++ nl :: Y) = None) as ->; [|reflexivity].
  apply (assign_head_app_nl (c :: p) Y HY).
  now apply (assign_head_app_nl (c :: p) []).
Qed.

Lemma assignments_after_brace (p Y : text) :
  assignments (p ++ [RBRACE]) = [] ->
  assignments (p ++ RBRACE :: Y) = assignments Y.
Proof.
  induction p as [|c p IH]; intros E; [reflexivity|].
  change ((c :: p) ++ [RBRACE]) with (c :: p ++ [RBRACE]) in E.
  apply assignments_nil_cons in E as [E1 E2].
  change ((c :: p) ++ RBRACE :: Y) with (c :: p ++ RBRACE :: Y).
  rewrite assignments_cons, (IH E2).
  assert (assign_head (c :: p ++ RBRACE :: Y) = None) as ->; [|reflexivity].
  now apply (assign_head_app_brace (c :: p) Y).
Qed.

(** The record of a name in which nothing is assigned stays so in every
    text. *)
Lemma rule_inert (spa Y : text) :
  assignments (rule spa) = [] ->
  assignments (rule spa ++ Y) = assignments Y.
Proof.
  intros E.
  assert (rule spa = (py "{'from_route': '/" ++ spa
                      ++ py "/<path:app_path>', 'to_route': '" ++ spa
                      ++ py "'") ++ [RBRACE]) as Hr
    by (rewrite rule_text, <- !app_assoc; reflexivity).
  rewrite Hr in E |- *; rewrite <- app_assoc.
  now apply assignments_after_brace.
Qed.

(** Blanks before the name. *)
Lemma blanks_no_start (q a : text) :
  head_outside (py " " ++ [9]) q = true -> q <> [] ->
  forallb is_blank a = true -> no_start q a = true.
Proof.
  intros Hq Hn; induction a as [|c a IH]; intros E; [reflexivity|].
  simpl in E; apply andb_prop in E as [Hc Ha].
  simpl; rewrite (IH Ha), andb_true_r.
  destruct q as [|x q]; [congruence|].
  simpl; unfold head_outside in Hq; simpl in Hq.
  unfold is_blank in Hc.
  destruct (x =? c) eqn:X; [|reflexivity].
  apply N.eqb_eq in X; subst c.
  rewrite orb_false_r in Hq; now rewrite Hc in Hq.
Qed.

Lemma skip_spaces_blanks (a : text) (c : char) (s : text) :
  forallb is_blank a = true ->
  skip_spaces (a ++ c :: s) = skip_spaces (c :: s).
Proof.
  induction a as [|x a IH]; intros E; [reflexivity|].
  simpl in E; apply andb_prop in E as [Hx Ha].
  change ((x :: a) ++ c :: s) with (x :: a ++ c :: s).
  change (skip_spaces (x :: a ++ c :: s))
    with (if is_space x || (x =? BACKSLASH)
          then skip_spaces (a ++ c :: s) else x :: a ++ c :: s).
  assert (is_space x = true) as ->; [|now apply IH].
  unfold is_blank in Hx; apply orb_prop in Hx as [H|H];
    apply N.eqb_eq in H; subst x; reflexivity.
Qed.

(** A text in which the pattern matches assigns the variable. *)
Lemma match_here_assigns (s : text) (gr : text * text) :
  match_here s = Some gr -> assign_head s <> None.
Proof.
  unfold match_here; intros E.
  destruct (lit NAME s) as [s1|] eqn:L1; [|discriminate].
  cbv beta delta [bind_opt] iota in E.
  apply opt_space_inv in E as (ws1 & s2 & -> & W1 & E).
  destruct (lit [EQUALS] s2) as [s3|] eqn:L2; [|discriminate].
  apply lit_inv in L2; subst s2.
  cbv beta iota in E.
  apply opt_space_inv in E as (ws2 & s4 & -> & W2 & E).
  destruct (lit [LBRACKET] s4) as [s5|] eqn:L3; [|discriminate].
  apply lit_inv in L3; subst s4.
  unfold assign_head; rewrite L1.
  assert (skip_spaces (ws1 ++ [EQUALS] ++ ws2 ++ [LBRACKET] ++ s5)
          = EQUALS :: ws2 ++ [LBRACKET] ++ s5) as ->.
  { destruct ws1 as [|c [|]]; try discriminate; [reflexivity|].
    simpl in W1; simpl; now rewrite W1. }
  assert (starts_with_equals (ws2 ++ [LBRACKET] ++ s5) = false) as ->.
  { destruct ws2 as [|c [|]]; try discriminate; [reflexivity|].
    simpl in W2; simpl.
    destruct (c =? EQUALS) eqn:X; [|reflexivity].
    apply N.eqb_eq in X; subst c; discriminate. }
  discriminate.
Qed.

Lemma unassigned_no_match (t : text) :
  assignments t = [] -> re_search t = false.
Proof.
  induction t as [|c t IH]; intros E; [reflexivity|].
  apply assignments_nil_cons in E as [E1 E2].
  rewrite re_search_eqn.
  destruct (match_here (c :: t)) as [gr|] eqn:M; [|now apply IH].
  now apply match_here_assigns in M.
Qed.

(** The line the generator writes assigns the variable the text after
    the [=]. *)
Lemma assign_head_line (W : text) :
  assign_head (py "website_route_rules = [" ++ W)
  = Some (py "[" ++ take_line W).
Proof.
  change (py "website_route_rules = [" ++ W) with (NAME ++ py " = [" ++ W).
  unfold assign_head; rewrite lit_app; reflexivity.
Qed.

Lemma assignments_line (W : text) :
  assignments (py "website_route_rules = [" ++ W)
  = (py "[" ++ take_line W) :: assignments W.
Proof.
  change (py "website_route_rules = [" ++ W)
    with (119 :: py "ebsite_route_rules = [" ++ W).
  rewrite assignments_cons.
  change (119 :: py "ebsite_route_rules = [" ++ W)
    with (py "website_route_rules = [" ++ W).
  rewrite assign_head_line.
  now rewrite (assignments_skip (py "ebsite_route_rules = [") W).
Qed.

(** ** Replacing placeholders assigns nothing *)
Section PlaceholderAssignments.
Variable R' : text.
Let R : text := 123 :: R'.
Let f : text -> text := str_replace PLACEHOLDER R.
Hypothesis R_inert : forall Y : text, assignments (R ++ Y) = assignments Y.

Lemma skip_spaces_f (t : text) : skip_spaces (f t) = f (skip_spaces t).
Proof.
  induction t as [|c t IH]; [reflexivity|].
  destruct (f_cases R' c t) as [(rest & -> & -> & E)|E].
  - fold R f in E; now rewrite E.
  - fold R f in E; rewrite E.
    change (skip_spaces (c :: f t))
      with (if is_space c || (c =? BACKSLASH)
            then skip_spaces (f t) else c :: f t).
    change (skip_spaces (c :: t))
      with (if is_space c || (c =? BACKSLASH) then skip_spaces t else c :: t).
    destruct (is_space c || (c =? BACKSLASH)); [exact IH|now rewrite E].
Qed.

Lemma assign_head_f_none (t : text) :
  assign_head t = None -> assign_head (f t) = None.
Proof.
  unfold assign_head, f, R; rewrite lit_f by reflexivity.
  destruct (lit NAME t) as [r|]; [|reflexivity].
  cbv beta iota delta [option_map]; fold R f; rewrite skip_spaces_f.
  destruct (skip_spaces r) as [|c v]; [reflexivity|].
  destruct (f_cases R' c v) as [(rest & -> & -> & E)|E];
    fold R f in E; rewrite E.
  - reflexivity.
  - unfold f, R; rewrite starts_with_equals_f.
    now destruct ((c =? EQUALS) && negb (starts_with_equals v) || (c =? COLON)).
Qed.

Lemma assignments_f_nil (t : text) :
  assignments t = [] -> assignments (f t) = [].
Proof.
  remember (length t) as n eqn:Hn.
  revert t Hn; induction n as [n IH] using lt_wf_ind; intros t Hn D.
  destruct t as [|c t]; [reflexivity|].
  destruct (f_cases R' c t) as [(rest & -> & -> & E)|E];
    fold R f in E; rewrite E.
  - rewrite R_inert.
    apply (IH (length rest)); [|reflexivity|].
    + subst n; change (123 :: PLACEHOLDER_TAIL ++ rest)
        with (PLACEHOLDER ++ rest).
      rewrite length_app; simpl; lia.
    + now apply (assignments_suffix PLACEHOLDER rest).
  - apply assignments_nil_cons in D as [D1 D2].
    apply assignments_nil_cons; split.
    + rewrite <- E; now apply assign_head_f_none.
    + apply (IH (length t)); [subst n; simpl; lia|reflexivity|assumption].
Qed.

(** What may follow a list on its line still may. *)
Lemma trailer_cons (c : char) (s : text) :
  trailer (c :: s) = if is_blank c then trailer s else c =? HASH.
Proof. unfold trailer; simpl; now destruct (is_blank c). Qed.

Lemma trailer_f (t : text) :
  trailer (take_line t) = true -> trailer (take_line (f t)) = true.
Proof.
  induction t as [|c t IH]; [reflexivity|].
  destruct (f_cases R' c t) as [(rest & -> & -> & E)|E];
    fold R f in E; rewrite E.
  - intros H; discriminate H.
  - rewrite !take_line_cons.
    destruct (is_break c); [reflexivity|].
    rewrite !trailer_cons; now destruct (is_blank c).
Qed.

End PlaceholderAssignments.

(* ===================================================================== *)
(** * List literals *)
(* ===================================================================== *)

Lemma scan_app (a b : text) (s : state) : scan (a ++ b) s = scan b (scan a s).
Proof. apply fold_left_app. Qed.

Lemma scan_cons (c : char) (a : text) (s : state) :
  scan (c :: a) s = scan a (step s c).
Proof. reflexivity. Qed.

Lemma scan_stuck (a : text) : scan a Stuck = Stuck.
Proof. induction a as [|c a IH]; [reflexivity|exact IH]. Qed.

Lemma scan_trailing (a : text) : scan a Trailing = Trailing.
Proof. induction a as [|c a IH]; [reflexivity|exact IH]. Qed.

Lemma quotable_inv (spa : text) :
  quotable spa = true ->
  scan spa (Inside (Str QUOTE) [FVal; FList])
  = Inside (Str QUOTE) [FVal; FList].
Proof.
  unfold quotable.
  destruct (scan spa (Inside (Str QUOTE) [FVal; FList])) as [|m st| |];
    try discriminate.
  destruct m as [| |q|q| | |w]; try discriminate.
  destruct st as [|[] [|[] [|]]]; try discriminate.
  intros E; apply N.eqb_eq in E; now subst q.
Qed.

(** The record of a quotable name is one item of a list. *)
Lemma scan_rule (spa : text) :
  quotable spa = true ->
  scan (rule spa) (Inside Open [FList]) = Inside After [FList].
Proof.
  intros E; apply quotable_inv in E.
  rewrite rule_text, !scan_app.
  change (scan (py "{'from_route': '/") (Inside Open [FList]))
    with (Inside (Str QUOTE) [FVal; FList]).
  rewrite E.
  change (scan (py "/<path:app_path>', 'to_route': '")
            (Inside (Str QUOTE) [FVal; FList]))
    with (Inside (Str QUOTE) [FVal; FList]).
  now rewrite E.
Qed.

Lemma list_literal_fresh (spa : text) :
  quotable spa = true -> list_literal (py "[" ++ rule spa ++ py ",]") = true.
Proof.
  intros E; unfold list_literal; rewrite !scan_app.
  change (scan (py "[") Start) with (Inside Open [FList]).
  now rewrite (scan_rule spa E).
Qed.

(** A record more at the head of a list literal. *)
Lemma list_literal_prepend (spa X : text) :
  quotable spa = true ->
  list_literal (py "[" ++ rule spa ++ py ", " ++ X) = list_literal (py "[" ++ X).
Proof.
  intros E; unfold list_literal; rewrite !scan_app.
  change (scan (py "[") Start) with (Inside Open [FList]).
  now rewrite (scan_rule spa E).
Qed.

Ltac step_cases :=
  repeat match goal with
         | |- context [if ?b then _ else _] => destruct b eqn:?
         | |- context [match escape ?c with _ => _ end] => destruct (escape c)
         end;
  try reflexivity; try assumption; try discriminate.

(** Only a closing bracket closes the list. *)
Lemma step_unclosed (s : state) (c : char) :
  unclosed s = true -> (c =? RBRACKET) = false ->
  unclosed (step s c) = true.
Proof.
  intros U Hc.
  destruct s as [|m st| |]; try discriminate; [|reflexivity].
  destruct st as [|fr [|fr' st]]; [discriminate| |].
  - destruct fr; try discriminate.
    destruct m as [| |q|q| | |[|x [|y w]]];
      cbv beta iota delta [step value_start after_value];
      rewrite ?Hc; step_cases.
  - change (bottomed (fr :: fr' :: st)) with (bottomed (fr' :: st)) in U.
    cbv beta iota delta [unclosed] in U.
    destruct m as [| |q|q| | |[|x [|y w]]]; destruct fr;
      cbv beta iota delta [step value_start after_value];
      rewrite ?Hc; step_cases.
Qed.

Lemma scan_unclosed (L : text) (s : state) :
  unclosed s = true -> forallb (fun c => negb (c =? RBRACKET)) L = true ->
  unclosed (scan L s) = true.
Proof.
  revert s; induction L as [|c L IH]; intros s U E; [exact U|].
  simpl in E; apply andb_prop in E as [Hc HL].
  apply negb_true_iff in Hc.
  rewrite scan_cons; apply IH; [now apply step_unclosed|exact HL].
Qed.

Lemma unclosed_rejects (s : state) : unclosed s = true -> accepts s = false.
Proof. destruct s as [|[] [|]| |]; try discriminate; reflexivity. Qed.

(** A list that has been opened is unclosed or closed for good. *)
Lemma step_sound (s : state) (c : char) :
  unclosed s || accepts s = true ->
  unclosed (step s c) || accepts (step s c) = true.
Proof.
  intros U.
  destruct s as [|m st| |]; try discriminate; [|reflexivity|reflexivity].
  destruct st as [|fr [|fr' st]].
  - destruct m; try discriminate.
    cbv beta iota delta [step after_value]; step_cases.
  - destruct fr; try (destruct m; discriminate).
    destruct m as [| |q|q| | |[|x [|y w]]];
      cbv beta iota delta [step value_start after_value]; step_cases.
  - assert (bottomed (fr' :: st) = true) as B.
    { destruct m; cbv beta iota delta [unclosed accepts] in U;
        rewrite orb_false_r in U; exact U. }
    assert (forall m' x, unclosed (Inside m' (x :: fr' :: st)) = true) as B1
      by (intros; exact B).
    assert (forall m' x y, unclosed (Inside m' (x :: y :: fr' :: st)) = true)
      as B2 by (intros; exact B).
    assert (forall m', unclosed (Inside m' (fr' :: st)) = true) as B0
      by (intros; exact B).
    destruct m as [| |q|q| | |[|x [|y w]]]; destruct fr;
      cbv beta iota delta [step value_start after_value];
      step_cases; rewrite ?B0, ?B1, ?B2; reflexivity.
Qed.

Lemma scan_sound (L : text) (s : state) :
  unclosed s || accepts s = true ->
  unclosed (scan L s) || accepts (scan L s) = true.
Proof.
  revert s; induction L as [|c L IH]; intros s U; [exact U|].
  rewrite scan_cons; apply IH; now apply step_sound.
Qed.

Lemma scan_closed (L : text) : accepts (scan L (Inside After [])) = trailer L.
Proof.
  induction L as [|c L IH]; [reflexivity|].
  rewrite scan_cons, trailer_cons.
  change (step (Inside After []) c)
    with (if is_blank c then Inside After []
          else if c =? HASH then Trailing else Stuck).
  destruct (is_blank c); [exact IH|].
  destruct (c =? HASH); [now rewrite scan_trailing|now rewrite scan_stuck].
Qed.

(** What stands after the last closing bracket of the line does not
    decide the list, only whether the line may end so. *)
Lemma list_literal_tail (A L L' : text) :
  forallb (fun c => negb (c =? RBRACKET)) L = true ->
  (trailer L = true -> trailer L' = true) ->
  list_literal ((LBRACKET :: A) ++ L) = true ->
  list_literal ((LBRACKET :: A) ++ L') = true.
Proof.
  intros HL HT; unfold list_literal; rewrite !scan_app.
  assert (unclosed (scan (LBRACKET :: A) Start)
          || accepts (scan (LBRACKET :: A) Start) = true) as S
    by (rewrite scan_cons; now apply scan_sound).
  destruct (unclosed (scan (LBRACKET :: A) Start)) eqn:U.
  - intros E; apply (scan_unclosed L) in U; [|exact HL].
    apply unclosed_rejects in U; congruence.
  - destruct (scan (LBRACKET :: A) Start) as [|m st| |]; try discriminate.
    + destruct m; try discriminate; destruct st; try discriminate.
      rewrite !scan_closed; exact HT.
    + now rewrite !scan_trailing.
Qed.

Lemma closes_on_line_take_line (t : text) :
  closes_on_line t = false ->
  forallb (fun c => negb (c =? RBRACKET)) (take_line t) = true.
Proof.
  induction t as [|c t IH]; intros E; [reflexivity|].
  simpl in E; rewrite take_line_cons.
  destruct (is_break c) eqn:B; [reflexivity|].
  assert (is_dot c = true) as D.
  { unfold is_break in B; unfold is_dot.
    now apply orb_false_elim in B as [-> _]. }
  rewrite D in E; apply orb_false_elim in E as [Hc Ht].
  simpl; rewrite Hc; now apply IH.
Qed.

Lemma take_line_broken (g Y : text) :
  unbroken g = false -> take_line (g ++ Y) = take_line g.
Proof.
  induction g as [|c g IH]; intros E; [discriminate|].
  change ((c :: g) ++ Y) with (c :: g ++ Y); rewrite !take_line_cons.
  destruct (is_break c) eqn:B; [reflexivity|].
  f_equal; apply IH.
  unfold unbroken in E |- *; simpl in E; now rewrite B in E.
Qed.

(* ===================================================================== *)
(** * One declaration, a valid list *)
(* ===================================================================== *)

Lemma rule_brace (spa : text) :
  rule spa =
  123 :: py "'from_route': '/" ++ spa
  ++ py "/<path:app_path>', 'to_route': '" ++ spa ++ py "'}".
Proof. now rewrite rule_text. Qed.

Lemma assignments_replace_rule (spa t : text) :
  assignments (rule spa) = [] -> assignments t = [] ->
  assignments (str_replace PLACEHOLDER (rule spa) t) = [].
Proof.
  intros H D; rewrite rule_brace.
  apply assignments_f_nil; [|exact D].
  intros Y; rewrite <- rule_brace; now apply rule_inert.
Qed.

Lemma trailer_replace_rule (spa t : text) :
  trailer (take_line t) = true ->
  trailer (take_line (str_replace PLACEHOLDER (rule spa) t)) = true.
Proof. rewrite rule_brace; apply trailer_f. Qed.

(** The declaration the generator writes, in a text that assigns nothing
    before it. *)
Lemma assignments_indented (X a W : text) :
  bol X = true -> forallb is_blank a = true -> assignments X = [] ->
  assignments (X ++ a ++ py "website_route_rules = [" ++ W)
  = (py "[" ++ take_line W) :: assignments W.
Proof.
  intros HX Ha D.
  assert (assignments (a ++ py "website_route_rules = [" ++ W)
          = (py "[" ++ take_line W) :: assignments W) as E.
  { rewrite assignments_skip; [apply assignments_line|].
    now apply blanks_no_start. }
  destruct (bol_inv _ HX) as [->|[p ->]]; [exact E|].
  rewrite <- app_assoc; change ([nl] ++ ?Y) with (nl :: Y).
  rewrite assignments_after_nl; [exact E| |exact D].
  change (py "website_route_rules = [" ++ W)
    with (119 :: py "ebsite_route_rules = [" ++ W).
  now rewrite skip_spaces_blanks.
Qed.

Lemma blanks_plain_start (a : text) :
  forallb is_blank a = true -> plain_start (a ++ NAME) = true.
Proof.
  destruct a as [|c a]; [reflexivity|].
  simpl; intros E; apply andb_prop in E as [Hc _].
  unfold is_blank in Hc; unfold plain_start, head_outside; simpl.
  apply orb_prop in Hc as [H|H]; apply N.eqb_eq in H; subst c; reflexivity.
Qed.

Lemma blanks_absent (q a : text) :
  head_outside (py " " ++ [9]) q = true -> q <> [] ->
  forallb is_blank a = true -> occurs q a = false.
Proof.
  intros Hq Hn Ha.
  rewrite <- (app_nil_r a), occurs_no_start by now apply blanks_no_start.
  now destruct q.
Qed.

Lemma take_line_span (g T : text) :
  unbroken g = true ->
  take_line (g ++ RBRACKET :: T) = (g ++ [RBRACKET]) ++ take_line T.
Proof.
  intros E.
  change (g ++ RBRACKET :: T) with (g ++ [RBRACKET] ++ T).
  rewrite app_assoc; apply take_line_unbroken.
  now rewrite unbroken_app, E.
Qed.

Lemma replace_span (R g tail : text) :
  occurs PLACEHOLDER g = false ->
  str_replace PLACEHOLDER R (g ++ RBRACKET :: tail)
  = g ++ RBRACKET :: str_replace PLACEHOLDER R tail.
Proof.
  intros E; rewrite ph_absent_app by (exact E || reflexivity).
  now rewrite (ph_eqn R (RBRACKET :: tail)).
Qed.

(* ===================================================================== *)
(** * Properties of the hooks patcher *)
(* ===================================================================== *)

(** C1, as stated, fails, in both of its parts.  The declaration is
    duplicated: a text that declares the variable once, as the empty list,
    comes out with two declarations, because [(.+)] needs a character
    between the brackets; so does one with two blanks before the [=],
    because [\s?] takes at most one.  And the declaration is left
    malformed: the name is written between quotes as it is, so that a
    quote or a line feed in it ends the string or the line early, and a
    backslash at its end takes the closing quote; and a placeholder that
    stands in a string of the old list is replaced there by the record,
    quotes and all. *)
Lemma declaration_is_doubled_or_malformed :
  (assignments (py "website_route_rules = []" ++ [nl]) = [py "[]"]
   /\ list_literal (py "[]") = true
   /\ assignments
        (updates_hooks (py "website_route_rules = []" ++ [nl]) (py "billing"))
      = [py "[]";
         py "[{'from_route': '/billing/<path:app_path>', 'to_route': 'billing'},]"])
  /\
  (assignments (py "website_route_rules  = ['x']" ++ [nl]) = [py "['x']"]
   /\ list_literal (py "['x']") = true
   /\ assignments
        (updates_hooks (py "website_route_rules  = ['x']" ++ [nl])
           (py "billing"))
      = [py "['x']";
         py "[{'from_route': '/billing/<path:app_path>', 'to_route': 'billing'},]"])
  /\
  (assignments (py "x = 1" ++ [nl]) = []
   /\ assignments (updates_hooks (py "x = 1" ++ [nl]) (py "o'neil"))
      = [py "[{'from_route': '/o'neil/<path:app_path>', 'to_route': 'o'neil'},]"]
   /\ list_literal
        (py "[{'from_route': '/o'neil/<path:app_path>', 'to_route': 'o'neil'},]")
      = false)
  /\
  (assignments (updates_hooks (py "x = 1" ++ [nl]) (py "a" ++ [nl] ++ py "b"))
   = [py "[{'from_route': '/a"]
   /\ list_literal (py "[{'from_route': '/a") = false)
  /\
  (assignments (updates_hooks (py "x = 1" ++ [nl]) (py "a" ++ [BACKSLASH]))
   = [py "[{'from_route': '/a" ++ [BACKSLASH]
      ++ py "/<path:app_path>', 'to_route': 'a" ++ [BACKSLASH] ++ py "'},]"]
   /\ list_literal
        (py "[{'from_route': '/a" ++ [BACKSLASH]
         ++ py "/<path:app_path>', 'to_route': 'a" ++ [BACKSLASH] ++ py "'},]")
      = false)
  /\
  (assignments (py "website_route_rules = ['{rule}']" ++ [nl])
   = [py "['{rule}']"]
   /\ list_literal (py "['{rule}']") = true
   /\ assignments
        (updates_hooks (py "website_route_rules = ['{rule}']" ++ [nl]) (py "b"))
      = [py "[{'from_route': '/b/<path:app_path>', 'to_route': 'b'}, '{'from_route': '/b/<path:app_path>', 'to_route': 'b'}']"]
   /\ list_literal
        (py "[{'from_route': '/b/<path:app_path>', 'to_route': 'b'}, '{'from_route': '/b/<path:app_path>', 'to_route': 'b'}']")
      = false).
Proof. repeat split; vm_compute; reflexivity. Qed.

(** C1 (amended): one injection leaves exactly one assignment to
    website_route_rules in the whole text, and its value is a
    syntactically valid list literal, for an SPA name without line breaks
    that stays inside the quotes put around it and whose record assigns
    nothing to the variable, and for a text of one of two kinds.  Either
    nothing in the text assigns the variable: the one declaration is then
    the new line, with the record alone in its list.  Or the text assigns
    it once, on a line where only blanks stand before the name, in the
    form the pattern recognises, the span running to the last closing
    bracket of the line, and to a valid list literal: the one declaration
    is then that line, with the record put before the old items and what
    followed the list kept after it. *)
Theorem one_declaration_after_injection :
  (forall hooks spa : text,
     assignments hooks = [] ->
     unbroken spa = true -> quotable spa = true ->
     assignments (rule spa) = [] ->
     assignments (updates_hooks hooks spa) = [py "[" ++ rule spa ++ py ",]"]
     /\ list_literal (py "[" ++ rule spa ++ py ",]") = true)
  /\
  (forall pre a ws1 ws2 g tail spa : text,
     bol pre = true -> forallb is_blank a = true -> assignments pre = [] ->
     recognised ws1 ws2 g = true -> closes_on_line tail = false ->
     assignments (g ++ RBRACKET :: tail) = [] ->
     list_literal (py "[" ++ take_line (g ++ RBRACKET :: tail)) = true ->
     unbroken spa = true -> quotable spa = true ->
     assignments (rule spa) = [] ->
     assignments
       (updates_hooks (pre ++ a ++ declaration ws1 ws2 g ++ tail) spa)
     = [py "[" ++ rule spa ++ py ", "
        ++ take_line
             (g ++ RBRACKET :: str_replace PLACEHOLDER (rule spa) tail)]
     /\ list_literal
          (py "[" ++ rule spa ++ py ", "
           ++ take_line
                (g ++ RBRACKET :: str_replace PLACEHOLDER (rule spa) tail))
        = true).
Proof.
  split.
  - intros hooks spa D U P Hn; split; [|now apply list_literal_fresh].
    rewrite updates_hooks_fresh by now apply unassigned_no_match.
    rewrite assignments_after_nl;
      [|reflexivity
       |now apply assignments_before_nl, assignments_replace_rule].
    rewrite assignments_line, (rule_inert spa _ Hn).
    rewrite take_line_unbroken by now apply rule_unbroken.
    reflexivity.
  - intros pre a ws1 ws2 g tail spa Hb Ha Dp Hr Hc Dt Hv U P Hn.
    destruct (injected_line pre a ws1 ws2 g tail spa Hb
                (blanks_plain_start a Ha)
                (blanks_absent NAME a eq_refl ltac:(discriminate) Ha) Hr)
      as (rest & E & X).
    rewrite (X (or_introl Hc)) in E; clear X rest.
    pose proof (rewritten_bol spa pre Hb) as Hb'.
    unfold rewritten in E, Hb'.
    rewrite (re_sub_absent TEMPLATE pre) in E, Hb'
      by now apply unassigned_no_match.
    rewrite (re_sub_absent TEMPLATE tail) in E
      by (apply unassigned_no_match;
          now apply (assignments_suffix (g ++ [RBRACKET]) tail);
          rewrite <- app_assoc).
    rewrite (ph_absent (rule spa) a) in E
      by (apply blanks_absent; [reflexivity|discriminate|exact Ha]).
    apply recognised_inv in Hr as (_ & _ & _ & _ & Hp).
    split.
    + rewrite E, assignments_indented;
        [|exact Hb'|exact Ha|now apply assignments_replace_rule].
      rewrite (rule_inert spa _ Hn).
      rewrite (assignments_skip (py ", ")) by reflexivity.
      change (py "]" ++ ?T) with (RBRACKET :: T).
      rewrite <- (replace_span (rule spa) g tail Hp).
      rewrite (assignments_replace_rule spa _ Hn Dt).
      rewrite (app_assoc (rule spa)), take_line_unbroken, <- app_assoc;
        [reflexivity|].
      rewrite unbroken_app, rule_unbroken by exact U.
      reflexivity.
    + rewrite list_literal_prepend by exact P.
      destruct (unbroken g) eqn:Ug.
      * rewrite take_line_span in Hv |- * by exact Ug.
        revert Hv; apply (list_literal_tail (g ++ [RBRACKET]));
          [now apply closes_on_line_take_line|apply trailer_replace_rule].
      * now rewrite take_line_broken in Hv |- * by exact Ug.
Qed.

Lemma one_declaration_after_injection_witness :
  (assignments (updates_hooks (py "x = 1  # {rule}" ++ [nl]) (py "billing"))
   = [py "[{'from_route': '/billing/<path:app_path>', 'to_route': 'billing'},]"]
   /\ list_literal
        (py "[{'from_route': '/billing/<path:app_path>', 'to_route': 'billing'},]")
      = true)
  /\
  (assignments
     (updates_hooks
        (py "if x:" ++ [nl]
         ++ py "    website_route_rules = [1]  # {rule}" ++ [nl]
         ++ py "y = 2" ++ [nl]) (py "b"))
   = [py "[{'from_route': '/b/<path:app_path>', 'to_route': 'b'}, 1]  # {'from_route': '/b/<path:app_path>', 'to_route': 'b'}"]
   /\ list_literal
        (py "[{'from_route': '/b/<path:app_path>', 'to_route': 'b'}, 1]  # {'from_route': '/b/<path:app_path>', 'to_route': 'b'}")
      = true).
Proof.
  split.
  - exact (proj1 one_declaration_after_injection
             (py "x = 1  # {rule}" ++ [nl]) (py "billing")
             eq_refl eq_refl eq_refl eq_refl).
  - exact (proj2 one_declaration_after_injection
             (py "if x:" ++ [nl]) (py "    ") [32] [32] (py "1")
             (py "  # {rule}" ++ [nl] ++ py "y = 2" ++ [nl]) (py "b")
             eq_refl eq_refl eq_refl eq_refl eq_refl eq_refl eq_refl eq_refl
             eq_refl eq_refl).
Defined.




(** C3, as stated, fails.  A file whose only mention of the variable is a
    commented-out assignment has no declaration, yet the pattern matches
    inside the comment: the record goes into the comment and no
    declaration is appended.  And for an SPA name with a line feed in it
    the appended declaration breaks off in the middle of the record: its
    list does not read back. *)
Lemma commented_assignment_is_rewritten :
  (declarations (py "# website_route_rules = [1]" ++ [nl]) = []
   /\ updates_hooks (py "# website_route_rules = [1]" ++ [nl]) (py "b")
      = py "# website_route_rules = [{'from_route': '/b/<path:app_path>', 'to_route': 'b'}, 1]"
        ++ [nl]
   /\ declarations
        (updates_hooks (py "# website_route_rules = [1]" ++ [nl]) (py "b"))
      = [])
  /\
  (declarations (py "x = 1" ++ [nl]) = []
   /\ declarations
        (updates_hooks (py "x = 1" ++ [nl]) (py "a" ++ [nl] ++ py "b"))
      = [py "[{'from_route': '/a"]
   /\ first_record (py "[{'from_route': '/a") = None).
Proof. repeat split; vm_compute; reflexivity. Qed.

(** C3 (amended): when the pattern has no match anywhere in the text, the
    injection appends a line feed and the line
    [website_route_rules = [RECORD,]] at the end; if moreover the text has
    no declaration and the SPA name no line break, that line is the only
    declaration of the output, and for a name free of quotes, backslashes
    and line breaks its list reads back as the rule of the name followed
    by nothing but the trailing comma. *)
Theorem fresh_declaration_is_appended :
  forall hooks spa : text,
    re_search hooks = false ->
    updates_hooks hooks spa =
    str_replace PLACEHOLDER (rule spa) hooks
    ++ nl :: py "website_route_rules = [" ++ rule spa ++ py ",]"
    /\ (declarations hooks = [] -> unbroken spa = true ->
        declarations (updates_hooks hooks spa) = [py "[" ++ rule spa ++ py ",]"])
    /\ (plain spa = true ->
        first_record (py "[" ++ rule spa ++ py ",]")
        = Some (rule_of_spa spa, py ",]")).
Proof.
  intros hooks spa Hs; repeat split.
  - now apply updates_hooks_fresh.
  - intros D L.
    rewrite updates_hooks_fresh by assumption.
    rewrite declarations_fresh by now apply rule_unbroken.
    unfold declarations; now rewrite decls_from_replace_rule.
  - apply first_record_rule.
Qed.

Lemma fresh_declaration_is_appended_witness :
  updates_hooks (py "x = 1" ++ [nl]) (py "billing")
  = (py "x = 1" ++ [nl]) ++ nl
    :: py "website_route_rules = [{'from_route': '/billing/<path:app_path>', 'to_route': 'billing'},]"
  /\ declarations (updates_hooks (py "x = 1" ++ [nl]) (py "billing"))
     = [py "[{'from_route': '/billing/<path:app_path>', 'to_route': 'billing'},]"]
  /\ first_record
       (py "[{'from_route': '/billing/<path:app_path>', 'to_route': 'billing'},]")
     = Some ({| from_route := py "/billing/<path:app_path>";
                to_route := py "billing" |}, py ",]").
Proof.
  destruct (fresh_declaration_is_appended (py "x = 1" ++ [nl]) (py "billing")
              eq_refl) as (H1 & H2 & H3).
  split; [exact H1|split; [exact (H2 eq_refl eq_refl)|exact (H3 eq_refl)]].
Defined.

(** C4, as stated, fails: the text already ends with a line feed and the
    generator adds another one before the declaration, so a blank line
    separates them. *)
Lemma billing_output_has_a_blank_line :
  updates_hooks (py "x = 1" ++ [nl]) (py "billing")
  <> py "x = 1" ++ [nl]
     ++ py "website_route_rules = [{'from_route': '/billing/<path:app_path>', 'to_route': 'billing'},]".
Proof. vm_compute; discriminate. Qed.

(** C4 (amended): the SPA name billing on the text ["x = 1\n"] gives
    ["x = 1\n\nwebsite_route_rules = [{'from_route':
    '/billing/<path:app_path>', 'to_route': 'billing'},]"]. *)
Theorem billing_scenario :
  updates_hooks (py "x = 1" ++ [nl]) (py "billing")
  = py "x = 1" ++ [nl; nl]
    ++ py "website_route_rules = [{'from_route': '/billing/<path:app_path>', 'to_route': 'billing'},]".
Proof. vm_compute; reflexivity. Qed.




(** C6, as stated, fails: the name is written between single quotes
    without escaping, so a name with a quote in it ends the literal early
    and the list no longer reads back as a record; and a backslash in the
    name reads back as the escape it starts, here [\b], a backspace. *)
Lemma quoted_name_does_not_read_back :
  declarations (updates_hooks (py "x = 1" ++ [nl]) (py "o'neil"))
  = [py "[{'from_route': '/o'neil/<path:app_path>', 'to_route': 'o'neil'},]"]
  /\ first_record
       (py "[{'from_route': '/o'neil/<path:app_path>', 'to_route': 'o'neil'},]")
     = None
  /\ declarations
       (updates_hooks (py "x = 1" ++ [nl]) (py "a" ++ [BACKSLASH] ++ py "b"))
     = [py "[" ++ rule (py "a" ++ [BACKSLASH] ++ py "b") ++ py ",]"]
  /\ first_record (py "[" ++ rule (py "a" ++ [BACKSLASH] ++ py "b") ++ py ",]")
     = Some ({| from_route := py "/a" ++ [8] ++ py "/<path:app_path>";
                to_route := py "a" ++ [8] |}, py ",]").
Proof. repeat split; vm_compute; reflexivity. Qed.

(** C6 (amended): for an SPA name free of single quotes, backslashes and
    line breaks, the declaration that the injection writes or extends
    reads back with the rule of the name, from_route
    [/NAME/<path:app_path>] and to_route [NAME], as the first record of
    its list.  When the pattern has no match in the input, that is the
    last declaration of the output.  When the first occurrence of the name
    on a line is a declaration of the form the pattern recognises, it is
    the declaration at that place: the output reads there the name, [=]
    and a value that runs to the end of the line and starts with the
    record. *)
Theorem injected_rule_reads_back :
  (forall hooks spa : text,
     re_search hooks = false -> plain spa = true ->
     declarations (updates_hooks hooks spa)
     = declarations (str_replace PLACEHOLDER (rule spa) hooks)
       ++ [py "[" ++ rule spa ++ py ",]"]
     /\ first_record (py "[" ++ rule spa ++ py ",]")
        = Some (rule_of_spa spa, py ",]"))
  /\
  (forall pre a ws1 ws2 g tail spa : text,
     bol pre = true -> plain_start (a ++ NAME) = true ->
     occurs NAME a = false -> recognised ws1 ws2 g = true ->
     plain spa = true ->
     exists rest : text,
       updates_hooks (pre ++ a ++ declaration ws1 ws2 g ++ tail) spa =
       (rewritten spa pre ++ str_replace PLACEHOLDER (rule spa) a)
       ++ py "website_route_rules = [" ++ rule spa ++ py ", " ++ g ++ py "]"
       ++ rest
       /\ decl_head
            (py "website_route_rules = [" ++ rule spa ++ py ", " ++ g ++ py "]"
             ++ rest)
          = Some (py "[" ++ rule spa ++ take_line (py ", " ++ g ++ py "]" ++ rest))
       /\ first_record
            (py "[" ++ rule spa ++ take_line (py ", " ++ g ++ py "]" ++ rest))
          = Some (rule_of_spa spa, take_line (py ", " ++ g ++ py "]" ++ rest))
       /\ (closes_on_line tail = false \/ re_search tail = false ->
           rest = rewritten spa tail)).
Proof.
  split.
  - intros hooks spa Hs P; split; [|now apply first_record_rule].
    rewrite updates_hooks_fresh by assumption.
    rewrite declarations_fresh;
      [reflexivity|apply rule_unbroken; now apply plain_unbroken].
  - intros pre a ws1 ws2 g tail spa Hb Hs Ha Hr P.
    destruct (injected_line pre a ws1 ws2 g tail spa Hb Hs Ha Hr)
      as (rest & E & X).
    exists rest; split; [|split; [|split]].
    + now rewrite E, <- !app_assoc.
    + rewrite decl_head_line, take_line_unbroken; [reflexivity|].
      apply rule_unbroken; now apply plain_unbroken.
    + now apply first_record_rule.
    + exact X.
Qed.

Lemma injected_rule_reads_back_witness :
  (declarations (updates_hooks (py "x = 1" ++ [nl]) (py "billing"))
   = [] ++ [py "[{'from_route': '/billing/<path:app_path>', 'to_route': 'billing'},]"]
   /\ first_record
        (py "[{'from_route': '/billing/<path:app_path>', 'to_route': 'billing'},]")
      = Some ({| from_route := py "/billing/<path:app_path>";
                 to_route := py "billing" |}, py ",]"))
  /\
  (updates_hooks
     (py "x = 1" ++ [nl]
      ++ py "website_route_rules = [{'from_route': '/a', 'to_route': 'a'}]  # routes"
      ++ [nl]) (py "b")
   = py "x = 1" ++ [nl]
     ++ py "website_route_rules = [{'from_route': '/b/<path:app_path>', 'to_route': 'b'}, {'from_route': '/a', 'to_route': 'a'}]  # routes"
     ++ [nl]
   /\ decl_head
        (py "website_route_rules = [{'from_route': '/b/<path:app_path>', 'to_route': 'b'}, {'from_route': '/a', 'to_route': 'a'}]  # routes"
         ++ [nl])
      = Some (py "[{'from_route': '/b/<path:app_path>', 'to_route': 'b'}, {'from_route': '/a', 'to_route': 'a'}]  # routes")
   /\ first_record
        (py "[{'from_route': '/b/<path:app_path>', 'to_route': 'b'}, {'from_route': '/a', 'to_route': 'a'}]  # routes")
      = Some ({| from_route := py "/b/<path:app_path>"; to_route := py "b" |},
              py ", {'from_route': '/a', 'to_route': 'a'}]  # routes")).
Proof.
  split.
  - exact (proj1 injected_rule_reads_back
             (py "x = 1" ++ [nl]) (py "billing") eq_refl eq_refl).
  - destruct (proj2 injected_rule_reads_back
                (py "x = 1" ++ [nl]) [] [32] [32]
                (py "{'from_route': '/a', 'to_route': 'a'}")
                (py "  # routes" ++ [nl])
                (py "b") eq_refl eq_refl eq_refl eq_refl eq_refl)
      as (rest & E & D & F & X).
    rewrite (X (or_introl eq_refl)) in E, D, F.
    split; [exact E|split; [exact D|exact F]].
Defined.

(** C9: the record is put in through the placeholder [{rule}] and one
    replacement over the whole text.  A placeholder that stands in a text
    without a match of the pattern, after any text [pre] free of it, is
    replaced by the record like the one of the appended declaration, so
    the output does not start with the text that was given. *)
Theorem placeholder_in_the_file_is_replaced :
  forall pre post spa : text,
    occurs PLACEHOLDER pre = false ->
    re_search (pre ++ PLACEHOLDER ++ post) = false ->
    updates_hooks (pre ++ PLACEHOLDER ++ post) spa =
    pre ++ rule spa ++ str_replace PLACEHOLDER (rule spa) post
    ++ nl :: py "website_route_rules = [" ++ rule spa ++ py ",]"
    /\ lit (pre ++ PLACEHOLDER) (updates_hooks (pre ++ PLACEHOLDER ++ post) spa)
       = None.
Proof.
  intros pre post spa Hp Hs.
  assert (E : updates_hooks (pre ++ PLACEHOLDER ++ post) spa =
              pre ++ rule spa ++ str_replace PLACEHOLDER (rule spa) post
              ++ nl :: py "website_route_rules = [" ++ rule spa ++ py ",]").
  { rewrite updates_hooks_fresh by assumption.
    rewrite ph_absent_app, ph_hit by (assumption || reflexivity).
    now rewrite <- !app_assoc. }
  split; [exact E|].
  rewrite E; clear.
  induction pre as [|c pre IH].
  - rewrite rule_text; reflexivity.
  - change (lit ((c :: pre) ++ PLACEHOLDER) ((c :: pre) ++ ?x))
      with (if c =? c then lit (pre ++ PLACEHOLDER) (pre ++ x) else None).
    now rewrite N.eqb_refl.
Qed.

Lemma placeholder_in_the_file_is_replaced_witness :
  updates_hooks (py "# see {rule} below" ++ [nl]) (py "b")
  = py "# see {'from_route': '/b/<path:app_path>', 'to_route': 'b'} below"
    ++ [nl; nl]
    ++ py "website_route_rules = [{'from_route': '/b/<path:app_path>', 'to_route': 'b'},]"
  /\ lit (py "# see {rule}")
       (updates_hooks (py "# see {rule} below" ++ [nl]) (py "b"))
     = None.
Proof.
  exact (placeholder_in_the_file_is_replaced
           (py "# see ") (py " below" ++ [nl]) (py "b") eq_refl eq_refl).
Defined.

(* ===================================================================== *)
(** * Properties of the generation pipeline *)
(* ===================================================================== *)

Section Pipeline.
Context `{Host} `{Boilerplates}.

Lemma bind_assoc {A B C : Type} (c : M A) (f : A -> M B) (g : B -> M C)
    (w : world) :
  bind (bind c f) g w = bind c (fun a => bind (f a) g) w.
Proof. unfold bind; now destruct (c w). Qed.

(** C7: without the package.json of the SPA, [update_package_json] prints
    its message and returns; it reads nothing, writes nothing and runs
    nothing, so the disk, with both manifests, is as it was. *)
Theorem missing_manifest_returns_early :
  forall (self : SPAGenerator) (w : world),
    path_exists (w_disk w) (package_json_path self) = false ->
    update_package_json self w =
    Returned tt
      (printed w
         [py "package.json not found. Please manulally update the build command."]).
Proof.
  intros self w E; unfold update_package_json, bind, ask.
  now rewrite E.
Qed.

(** C8: without src/main.js, [link_controller_files] prints its two lines
    and returns without raising and without touching the disk; in
    [generate_spa] the run then goes on with [setup_proxy_options] and the
    steps after it, from that state. *)
Theorem missing_main_js_does_not_stop_the_run :
  (forall (self : SPAGenerator) (w : world),
     path_exists (w_disk w) (main_js_path self) = false ->
     link_controller_files self w =
     Returned tt
       (printed w [py "Linking controller files..."; py "src/main.js not found!"]))
  /\
  (forall (self : SPAGenerator) (w w1 : world),
     (click_echo (py "Generating spa...") ;; initialize_vue_vite_project self) w
     = Returned tt w1 ->
     path_exists (w_disk w1) (main_js_path self) = false ->
     generate_spa self w =
     (setup_proxy_options self ;;
      setup_vue_router self ;;
      create_vue_files self ;;
      update_package_json self ;;
      create_www_directory self ;;
      (if add_tailwindcss self then setup_tailwindcss self else ret tt) ;;
      add_routing_rule_to_hooks self ;;
      abs <- ask (fun d => absolute d (spa_path self)) ;;
      click_echo (py "Run: cd " ++ abs ++ py " && npm run dev") ;;
      click_echo
        (py "to start the development server and visit: http://<site>:8080"))
       (printed w1
          [py "Linking controller files..."; py "src/main.js not found!"])).
Proof.
  assert (L : forall (self : SPAGenerator) (w : world),
             path_exists (w_disk w) (main_js_path self) = false ->
             link_controller_files self w =
             Returned tt
               (printed w [py "Linking controller files...";
                           py "src/main.js not found!"])).
  { intros self w E.
    unfold link_controller_files, bind, ask, py_print, click_echo, emit.
    cbn [w_disk w_stdout]; rewrite E; cbn [w_disk w_stdout].
    unfold printed; now rewrite <- app_assoc. }
  split; [exact L|].
  intros self w w1 E1 E2; unfold generate_spa.
  rewrite <- (bind_assoc (click_echo (py "Generating spa..."))
                (fun _ => initialize_vue_vite_project self)).
  unfold bind at 1; rewrite E1.
  unfold bind at 1; now rewrite (L self w1 E2).
Qed.

(** C10: the record written depends on the SPA name alone: it is the text
    [{'from_route': '/NAME/<path:app_path>', 'to_route': 'NAME'}]; every
    placeholder of the template text, which does not depend on the name,
    is replaced by it; and [add_routing_rule_to_hooks] gives the
    transformation the text of hooks.py and [self.spa_name], nothing
    else. *)
Theorem record_is_determined_by_the_name :
  (forall spa : text,
     rule spa =
     py "{'from_route': '/" ++ spa ++ py "/<path:app_path>', 'to_route': '"
     ++ spa ++ py "'}")
  /\
  (forall hooks spa : text,
     updates_hooks hooks spa =
     str_replace PLACEHOLDER
       (py "{'from_route': '/" ++ spa
        ++ py "/<path:app_path>', 'to_route': '" ++ spa ++ py "'}")
       (rules hooks))
  /\
  (forall (self : SPAGenerator) (w : world) (hooks : text),
     read_text (hooks_py_path self) (w_disk w) = inr hooks ->
     add_routing_rule_to_hooks self w =
     act (write_text (hooks_py_path self)
            (str_replace PLACEHOLDER
               (py "{'from_route': '/" ++ spa_name self
                ++ py "/<path:app_path>', 'to_route': '" ++ spa_name self
                ++ py "'}")
               (rules hooks))) w).
Proof.
  split; [exact rule_text|split].
  - intros hooks spa; unfold updates_hooks; now rewrite rule_text.
  - intros self w hooks E.
    unfold add_routing_rule_to_hooks, bind, read; rewrite E.
    unfold updates_hooks; now rewrite rule_text.
Qed.

End Pipeline.

Lemma missing_manifest_returns_early_witness :
  update_package_json billing_in_shop
    (mem_world [(py "../apps/shop/package.json", py "{}")] [])
  = Returned tt
      (printed (mem_world [(py "../apps/shop/package.json", py "{}")] [])
         [py "package.json not found. Please manulally update the build command."]).
Proof.
  apply (missing_manifest_returns_early billing_in_shop
           (mem_world [(py "../apps/shop/package.json", py "{}")] [])).
  reflexivity.
Defined.

Lemma missing_main_js_does_not_stop_the_run_witness :
  link_controller_files billing_in_shop (mem_world [] [])
  = Returned tt
      (printed (mem_world [] [])
         [py "Linking controller files..."; py "src/main.js not found!"])
  /\ exists w' : world,
       generate_spa billing_in_shop
         (mem_world [(py "../apps/shop/shop/hooks.py", py "x = 1" ++ [nl])] [])
       = Returned tt w'
       /\ mem_lookup (w_disk w') (py "../apps/shop/billing/proxyOptions.js")
          = Some []
       /\ mem_lookup (w_disk w') (py "../apps/shop/shop/hooks.py")
          = Some (updates_hooks (py "x = 1" ++ [nl]) (py "billing")).
Proof.
  split.
  - apply (proj1 missing_main_js_does_not_stop_the_run billing_in_shop
             (mem_world [] [])).
    reflexivity.
  - eexists.
    rewrite (proj2 missing_main_js_does_not_stop_the_run billing_in_shop
               (mem_world
                  [(py "../apps/shop/shop/hooks.py", py "x = 1" ++ [nl])] [])
               (mem_world
                  [(py "../apps/shop/shop/hooks.py", py "x = 1" ++ [nl])]
                  [py "Generating spa..."; py "Scafolding vue project...";
                   py "Installing dependencies..."])
               eq_refl eq_refl).
    split; [vm_compute; reflexivity|split; vm_compute; reflexivity].
Defined.

Lemma record_is_determined_by_the_name_witness :
  add_routing_rule_to_hooks billing_in_shop
    (mem_world [(py "../apps/shop/shop/hooks.py", py "x = 1" ++ [nl])] [])
  = Returned tt
      (mem_world
         [(py "../apps/shop/shop/hooks.py",
           py "x = 1" ++ [nl; nl]
           ++ py "website_route_rules = [{'from_route': '/billing/<path:app_path>', 'to_route': 'billing'},]")]
         []).
Proof.
  exact (proj2 (proj2 record_is_determined_by_the_name) billing_in_shop
           (mem_world [(py "../apps/shop/shop/hooks.py", py "x = 1" ++ [nl])] [])
           (py "x = 1" ++ [nl]) eq_refl).
Defined.

(* ===================================================================== *)
(** * Further properties: what the pattern matches *)
(* ===================================================================== *)

(** X1: the pattern of line 149 matches at the start of a text exactly
    when the text starts with the name, at most one white space character,
    [=], at most one white space character and a bracketed span that is
    not empty and holds no line feed; the span taken as group 1 runs to
    the last closing bracket of the line. *)
Theorem pattern_matches_exactly_declarations :
  forall s g r : text,
    match_here s = Some (g, r) <->
    exists ws1 ws2,
      s = declaration ws1 ws2 g ++ r
      /\ opt_ws ws1 = true /\ opt_ws ws2 = true
      /\ g <> [] /\ one_line g = true /\ closes_on_line r = false.
Proof.
  intros s g r; split.
  - unfold match_here; intros E.
    apply bind_opt_some in E as (s1 & L1 & E); apply lit_inv in L1.
    apply opt_space_inv in E as (ws1 & s1' & -> & H1 & E).
    apply bind_opt_some in E as (s2 & L2 & E); apply lit_inv in L2.
    apply opt_space_inv in E as (ws2 & s2' & -> & H2 & E).
    apply bind_opt_some in E as (s3 & L3 & E); apply lit_inv in L3.
    apply dot_plus_close_inv in E as (-> & Hg & Hl & Hr).
    exists ws1, ws2; subst.
    rewrite declaration_app; repeat split; try assumption.
    now apply closes_on_line_spec.
  - intros (ws1 & ws2 & -> & H1 & H2 & Hg & Hl & Hr).
    rewrite declaration_opening, match_here_opening by assumption.
    now apply dot_plus_close_intro.
Qed.

Lemma pattern_matches_exactly_declarations_witness :
  match_here (py "website_route_rules = [a] # [b]" ++ [nl] ++ py "x = [1]")
  = Some (py "a] # [b", [nl] ++ py "x = [1]").
Proof.
  apply (proj2 (pattern_matches_exactly_declarations
                  (py "website_route_rules = [a] # [b]" ++ [nl] ++ py "x = [1]")
                  (py "a] # [b") ([nl] ++ py "x = [1]"))).
  exists [32], [32]; repeat split; discriminate.
Defined.

(* ===================================================================== *)
(** * Further properties: declarations the pattern passes over *)
(* ===================================================================== *)

(** [\s?] before a token and after a run of white space: more than one
    character of white space cannot be skipped. *)
Lemma opt_space_run {A : Type} (x : char) (k : text -> option A)
    (ws s : text) :
  forallb is_space ws = true -> is_space x = false ->
  (forall c, is_space c = true -> (x =? c) = false) ->
  opt_space (fun s1 => bind_opt (lit [x] s1) k) (ws ++ x :: s) =
  if opt_ws ws then k s else None.
Proof.
  intros Hw Hx Hc.
  destruct (opt_ws ws) eqn:O; [now apply opt_space_token|].
  destruct ws as [|a [|b ws]]; [discriminate| |].
  - simpl in Hw, O; rewrite andb_true_r in Hw; congruence.
  - simpl in Hw; apply andb_prop in Hw as [Ha Hw].
    apply andb_prop in Hw as [Hb _].
    change ((a :: b :: ws) ++ x :: s) with (a :: b :: ws ++ x :: s).
    unfold opt_space; rewrite Ha.
    rewrite !lit_cons, (Hc a Ha), (Hc b Hb); reflexivity.
Qed.

Lemma match_here_spacing (ws1 ws2 X : text) :
  forallb is_space ws1 = true -> forallb is_space ws2 = true ->
  match_here (opening ws1 ws2 ++ X) =
  if opt_ws ws1 && opt_ws ws2 then dot_plus_close X else None.
Proof.
  intros H1 H2; unfold match_here, opening.
  rewrite <- !app_assoc, lit_app.
  unfold bind_opt at 1.
  change ((EQUALS :: ws2 ++ [LBRACKET]) ++ X)
    with (EQUALS :: (ws2 ++ [LBRACKET]) ++ X).
  rewrite opt_space_run;
    [|assumption|reflexivity|intros c Hc; now apply space_is_no_token].
  destruct (opt_ws ws1); [|reflexivity].
  rewrite <- app_assoc; change ([LBRACKET] ++ X) with (LBRACKET :: X).
  now rewrite opt_space_run;
    [|assumption|reflexivity|intros c Hc; now apply space_is_no_token].
Qed.

(** X2: after the name, runs of white space around [=] and the opening
    bracket, the pattern matches only if each run has at most one
    character; the match is then decided by what follows the bracket. *)
Theorem spacing_decides_the_match :
  forall ws1 ws2 X : text,
    forallb is_space ws1 = true -> forallb is_space ws2 = true ->
    match_here (opening ws1 ws2 ++ X) =
    if opt_ws ws1 && opt_ws ws2 then dot_plus_close X else None.
Proof. exact match_here_spacing. Qed.

Lemma spacing_decides_the_match_witness :
  match_here (opening (py "  ") (py " ") ++ py "1]") = None
  /\ match_here (opening [9] [] ++ py "1]") = Some (py "1", []).
Proof.
  split.
  - exact (spacing_decides_the_match (py "  ") (py " ") (py "1]")
             eq_refl eq_refl).
  - exact (spacing_decides_the_match [9] [] (py "1]") eq_refl eq_refl).
Defined.








(* ===================================================================== *)
(** * Further properties: the record is always written *)
(* ===================================================================== *)

Lemma occurs_prefix (q b : text) : occurs q (q ++ b) = true.
Proof. now rewrite occurs_eqn, lit_app. Qed.

Lemma occurs_prefix_snoc (a r : text) (c : char) (x : text) :
  occurs (a ++ r ++ [c]) (a ++ r ++ c :: x) = true.
Proof.
  replace (a ++ r ++ c :: x) with ((a ++ r ++ [c]) ++ x)
    by now rewrite <- !app_assoc.
  apply occurs_prefix.
Qed.

Lemma occurs_cons (q s : text) (c : char) :
  occurs q s = true -> occurs q (c :: s) = true.
Proof.
  intros E; rewrite occurs_eqn; now destruct (lit q (c :: s)).
Qed.

Lemma occurs_app_intro_r (q a b : text) :
  occurs q b = true -> occurs q (a ++ b) = true.
Proof.
  intros E; induction a as [|c a IH]; [exact E|].
  now apply occurs_cons.
Qed.

(** Whether the pattern matched or not, the text handed to [str.replace]
    holds the name, [ = ], the opening bracket, the placeholder and a
    comma. *)
Lemma rules_slot (hooks : text) :
  occurs (py "website_route_rules = [{rule},") (rules hooks) = true.
Proof.
  unfold rules; cbv zeta.
  destruct (re_search hooks) eqn:E; cbv beta iota delta [negb].
  - induction hooks as [|c t IH]; [discriminate|].
    rewrite re_search_eqn in E; rewrite re_sub_eqn.
    destruct (match_here (c :: t)) as [[g r]|].
    + change (expand TEMPLATE g)
        with (py "website_route_rules = [{rule}," ++ 32 :: g ++ py "]" ++ []).
      rewrite <- app_assoc; apply occurs_prefix.
    + apply occurs_cons; now apply IH.
  - apply occurs_app_intro_r.
    change FRESH with (nl :: py "website_route_rules = [{rule}," ++ py "]").
    apply occurs_cons, occurs_prefix.
Qed.

(** The replacement turns that stretch into the same with the record in
    the place of the placeholder. *)
Lemma replace_slot (R : text) (n : nat) :
  forall t : text,
    (length t <= n)%nat ->
    occurs (py "website_route_rules = [{rule},") t = true ->
    occurs (py "website_route_rules = [" ++ R ++ py ",")
      (str_replace PLACEHOLDER R t) = true.
Proof.
  induction n as [|n IH]; intros t Hn E.
  - destruct t; [discriminate|simpl in Hn; lia].
  - rewrite occurs_eqn in E.
    destruct (lit (py "website_route_rules = [{rule},") t) as [rest|] eqn:L.
    + apply lit_inv in L; subst t.
      change (py "website_route_rules = [{rule}," ++ rest)
        with (py "website_route_rules = [" ++ PLACEHOLDER ++ 44 :: rest).
      rewrite ph_absent_app by reflexivity.
      rewrite ph_hit, (ph_eqn R (44 :: rest)).
      change (lit PLACEHOLDER (44 :: rest)) with (@None text).
      cbv beta iota.
      exact (occurs_prefix_snoc (py "website_route_rules = [") R 44 _).
    + destruct t as [|c t]; [discriminate|].
      rewrite ph_eqn.
      destruct (lit PLACEHOLDER (c :: t)) as [rest|] eqn:P.
      * pose proof (lit_length _ _ _ P) as Hl.
        apply lit_inv in P.
        assert (E' : occurs (py "website_route_rules = [{rule},") (c :: t) = true).
        { now apply occurs_cons. }
        rewrite P, occurs_no_start in E' by reflexivity.
        apply occurs_app_intro_r, IH; [|assumption].
        simpl in Hn, Hl; lia.
      * apply occurs_cons, IH; [simpl in Hn; lia|assumption].
Qed.

(** X4: whatever hooks.py holds and whatever the SPA name is, the text
    written back holds the name of the variable, [ = ], an opening bracket
    and, right after it, the record followed by a comma. *)
Theorem record_is_always_written :
  forall hooks spa : text,
    occurs (py "website_route_rules = [" ++ rule spa ++ py ",")
      (updates_hooks hooks spa) = true.
Proof.
  intros hooks spa; unfold updates_hooks.
  apply (replace_slot (rule spa) (length (rules hooks))); [lia|].
  apply rules_slot.
Qed.

(* ===================================================================== *)
(** * Further properties: the record and the SPA name *)
(* ===================================================================== *)

Lemma app_same_length {A : Type} (a b x y : list A) :
  a ++ x = b ++ y -> length a = length b -> a = b.
Proof.
  revert b; induction a as [|c a IH]; intros [|d b] E Hl;
    try discriminate; [reflexivity|].
  simpl in E, Hl; inversion E; subst; f_equal.
  apply IH; [assumption|lia].
Qed.

(** X5: two SPA names with the same record are the same name. *)
Theorem rule_is_injective :
  forall a b : text, rule a = rule b -> a = b.
Proof.
  intros a b E; rewrite !rule_text in E.
  assert (Hl : length a = length b).
  { apply (f_equal (@length char)) in E.
    rewrite !length_app in E; lia. }
  apply app_inv_head in E.
  now apply (app_same_length _ _ _ _ E).
Qed.

Lemma rule_is_injective_witness : py "billing" = py "bill" ++ py "ing".
Proof.
  exact (rule_is_injective (py "billing") (py "bill" ++ py "ing") eq_refl).
Defined.

(* ===================================================================== *)
(** * Further properties: one SPA after the other *)
(* ===================================================================== *)








(* ===================================================================== *)
(** * Further properties: the scripts of a manifest *)
(* ===================================================================== *)

Lemma text_eqb_eq (a b : text) : text_eqb a b = true -> a = b.
Proof. unfold text_eqb; now destruct (list_eq_dec N.eq_dec a b). Qed.

Lemma text_eqb_neq (a b : text) : a <> b -> text_eqb a b = false.
Proof. unfold text_eqb; now destruct (list_eq_dec N.eq_dec a b). Qed.

Lemma dict_get_set_same (k : text) (v : json) (m : list (text * json)) :
  dict_get k (dict_set k v m) = Some v.
Proof.
  induction m as [|[k' v'] m IH]; cbn [dict_set dict_get].
  - now rewrite text_eqb_refl.
  - destruct (text_eqb k' k) eqn:E; cbn [dict_get].
    + now rewrite text_eqb_refl.
    + now rewrite E.
Qed.

Lemma dict_get_set_other (k k' : text) (v : json) (m : list (text * json)) :
  k' <> k -> dict_get k' (dict_set k v m) = dict_get k' m.
Proof.
  intros N; induction m as [|[a v'] m IH]; cbn [dict_set dict_get].
  - now rewrite text_eqb_neq by congruence.
  - destruct (text_eqb a k) eqn:E; cbn [dict_get].
    + apply text_eqb_eq in E; subst a.
      now rewrite text_eqb_neq by congruence.
    + now rewrite IH.
Qed.

Lemma set_script_inv (key value : text) (data d' : json) :
  set_script key value data = inr d' ->
  exists m sm,
    data = JObject m
    /\ dict_get (py "scripts") m = Some (JObject sm)
    /\ d' = JObject (dict_set (py "scripts")
                       (JObject (dict_set key (JString value) sm)) m).
Proof.
  unfold set_script; destruct data as [| | | | |m]; try discriminate.
  destruct (dict_get (py "scripts") m) as [[| | | | |sm]|] eqn:E;
    try discriminate.
  intros E'; inversion E'; now exists m, sm.
Qed.

Lemma set_script_object (key value : text) (m sm : list (text * json)) :
  dict_get (py "scripts") m = Some (JObject sm) ->
  set_script key value (JObject m) =
  inr (JObject (dict_set (py "scripts")
                  (JObject (dict_set key (JString value) sm)) m)).
Proof. intros E; unfold set_script; now rewrite E. Qed.

(** X7: [data["scripts"][k] = v], as lines 178-185 and 200-201 write it
    twice in a row.  When the first assignment passes, so does the
    second; the second key then holds its value, the first one too unless
    the keys are equal, every other script is as it was, and so is every
    other member of the manifest. *)
Theorem scripts_are_set_and_the_rest_is_kept :
  forall (data d1 : json) (k1 v1 k2 v2 : text),
    set_script k1 v1 data = inr d1 ->
    exists d2 : json,
      set_script k2 v2 d1 = inr d2
      /\ script k2 d2 = Some (JString v2)
      /\ (k1 <> k2 -> script k1 d2 = Some (JString v1))
      /\ (forall k, k <> k1 -> k <> k2 -> script k d2 = script k data)
      /\ (forall k, k <> py "scripts" -> member k d2 = member k data).
Proof.
  intros data d1 k1 v1 k2 v2 E.
  apply set_script_inv in E as (m & sm & -> & Hs & ->).
  eexists; split.
  - apply set_script_object, dict_get_set_same.
  - unfold script, member.
    rewrite !dict_get_set_same, Hs.
    split; [reflexivity|split; [|split]].
    + intros N; rewrite dict_get_set_other by congruence.
      apply dict_get_set_same.
    + intros k N1 N2; now rewrite !dict_get_set_other by congruence.
    + intros k N; now rewrite !dict_get_set_other by congruence.
Qed.

Lemma scripts_are_set_and_the_rest_is_kept_witness :
  exists d2 : json,
    set_script (py "copy-html-entry") (py "cp a b")
      (JObject [(py "name", JString (py "billing"));
                (py "scripts",
                 JObject [(py "dev", JString (py "vite"));
                          (py "build", JString (py "vite build --base=/x/"))])])
    = inr d2
    /\ script (py "copy-html-entry") d2 = Some (JString (py "cp a b"))
    /\ script (py "build") d2 = Some (JString (py "vite build --base=/x/"))
    /\ script (py "dev") d2 = Some (JString (py "vite"))
    /\ member (py "name") d2 = Some (JString (py "billing")).
Proof.
  destruct (scripts_are_set_and_the_rest_is_kept
              (JObject [(py "name", JString (py "billing"));
                        (py "scripts",
                         JObject [(py "dev", JString (py "vite"));
                                  (py "build", JString (py "vite build"))])])
              (JObject [(py "name", JString (py "billing"));
                        (py "scripts",
                         JObject [(py "dev", JString (py "vite"));
                                  (py "build",
                                   JString (py "vite build --base=/x/"))])])
              (py "build") (py "vite build --base=/x/")
              (py "copy-html-entry") (py "cp a b") eq_refl)
    as (d2 & E & A & B & C & D).
  exists d2; split; [exact E|split; [exact A|split; [|split]]].
  - apply B; discriminate.
  - rewrite C by discriminate; reflexivity.
  - rewrite D by discriminate; reflexivity.
Defined.

(* ===================================================================== *)
(** * Further properties: texts without carriage returns *)
(* ===================================================================== *)

(** What the pattern has matched: the name, at most one white space
    character on each side of [=], and group 1 between brackets. *)
Lemma match_here_inv (s g r : text) :
  match_here s = Some (g, r) ->
  exists ws1 ws2 : text,
    s = declaration ws1 ws2 g ++ r
    /\ opt_ws ws1 = true /\ opt_ws ws2 = true.
Proof.
  unfold match_here; intros E.
  destruct (lit NAME s) as [s1|] eqn:L1; [|discriminate].
  apply lit_inv in L1; subst s.
  cbv beta delta [bind_opt] iota in E.
  apply opt_space_inv in E as (ws1 & s2 & -> & W1 & E).
  destruct (lit [EQUALS] s2) as [s3|] eqn:L2; [|discriminate].
  apply lit_inv in L2; subst s2.
  cbv beta iota in E.
  apply opt_space_inv in E as (ws2 & s4 & -> & W2 & E).
  destruct (lit [LBRACKET] s4) as [s5|] eqn:L3; [|discriminate].
  apply lit_inv in L3; subst s4.
  cbv beta iota in E.
  apply dot_plus_close_inv in E as (-> & _).
  exists ws1, ws2; split; [|now split].
  rewrite declaration_opening; unfold opening.
  change (EQUALS :: ws2 ++ [LBRACKET]) with ([EQUALS] ++ ws2 ++ [LBRACKET]).
  rewrite <- !app_assoc; reflexivity.
Qed.

Section Characters.
Variable P : char -> bool.

(** [str.replace] brings in the characters of the new text only. *)
Lemma forallb_replace (R : text) (n : nat) :
  forallb P R = true ->
  forall t : text,
    (length t <= n)%nat -> forallb P t = true ->
    forallb P (str_replace PLACEHOLDER R t) = true.
Proof.
  intros HR; induction n as [|n IH]; intros t Hn Ht.
  - destruct t; [reflexivity|simpl in Hn; lia].
  - rewrite ph_eqn.
    destruct (lit PLACEHOLDER t) as [rest|] eqn:L.
    + apply lit_inv in L; subst t.
      rewrite forallb_app in Ht |- *; apply andb_prop in Ht as [_ Ht].
      rewrite HR; apply IH; [|exact Ht].
      rewrite length_app in Hn; simpl in Hn; lia.
    + destruct t as [|c t]; [reflexivity|].
      simpl in Ht |- *; apply andb_prop in Ht as [Hc Ht].
      rewrite Hc; apply IH; [simpl in Hn; lia|exact Ht].
Qed.

(** [pattern.sub] with the template of line 157 brings in the characters
    of the template only. *)
Lemma forallb_re_sub (n : nat) :
  forallb P (py "website_route_rules = [{rule}, ]") = true ->
  forall t : text,
    (length t <= n)%nat -> forallb P t = true ->
    forallb P (re_sub TEMPLATE t) = true.
Proof.
  intros HT; induction n as [|n IH]; intros t Hn Ht.
  - destruct t; [reflexivity|simpl in Hn; lia].
  - rewrite re_sub_eqn.
    destruct (match_here t) as [[g r]|] eqn:M.
    + apply match_here_inv in M as (ws1 & ws2 & -> & _).
      assert (forallb P g = true /\ forallb P r = true) as [Hg Hr].
      { unfold declaration in Ht.
        repeat (rewrite ?forallb_app in Ht; cbn [forallb] in Ht).
        repeat match goal with
               | X : _ && _ = true |- _ => apply andb_prop in X as [? ?]
               end.
        now split. }
      assert (length r <= n)%nat as Hl.
      { unfold declaration in Hn; rewrite !length_app in Hn.
        pose proof (length_app NAME (ws1 ++ EQUALS :: ws2 ++ LBRACKET :: g
                                     ++ [RBRACKET])).
        change (length NAME) with 19%nat in Hn; lia. }
      change (expand TEMPLATE g)
        with (py "website_route_rules = [{rule}, " ++ g ++ py "]" ++ []).
      change (py "website_route_rules = [{rule}, ]")
        with (py "website_route_rules = [{rule}, " ++ py "]") in HT.
      rewrite forallb_app in HT; apply andb_prop in HT as [H1 H2].
      rewrite forallb_app; apply andb_true_intro; split; [|now apply IH].
      rewrite !forallb_app, H1, Hg, H2; reflexivity.
    + destruct t as [|c t]; [reflexivity|].
      simpl in Ht |- *; apply andb_prop in Ht as [Hc Ht].
      rewrite Hc; apply IH; [simpl in Hn; lia|exact Ht].
Qed.

End Characters.

(** The patched text has a carriage return only if the text or the name
    had one. *)
Lemma updates_hooks_no_cr (hooks spa : text) :
  no_cr hooks = true -> no_cr spa = true ->
  no_cr (updates_hooks hooks spa) = true.
Proof.
  unfold no_cr; intros Hh Hs; unfold updates_hooks.
  apply (forallb_replace _ _ (length (rules hooks))); [|lia|].
  - rewrite rule_text, !forallb_app.
    repeat (apply andb_true_intro; split); reflexivity || exact Hs.
  - unfold rules; cbv zeta.
    destruct (negb (re_search hooks)).
    + rewrite forallb_app; apply andb_true_intro; split;
        [exact Hh|reflexivity].
    + apply (forallb_re_sub _ (length hooks)); [reflexivity|lia|exact Hh].
Qed.

(* ===================================================================== *)
(** * Further properties: the methods on the disk *)
(* ===================================================================== *)

Section Effects.
Context `{Host} `{Boilerplates}.

(** X8: a manifest that is a JSON object without a ["scripts"] member
    makes [update_package_json] raise [KeyError('scripts')] at line 178:
    nothing is written and nothing is printed. *)
Theorem manifest_without_scripts_raises :
  forall (self : SPAGenerator) (w : world) (content : text)
         (m : list (text * json)),
    path_exists (w_disk w) (package_json_path self) = true ->
    read_text (package_json_path self) (w_disk w) = inr content ->
    json_load content = inr (JObject m) ->
    dict_get (py "scripts") m = None ->
    update_package_json self w = Raised (PyError (KeyError (py "scripts"))) w.
Proof.
  intros self w content m E1 E2 E3 E4.
  unfold update_package_json, bind at 1, ask; rewrite E1; cbn [negb].
  unfold bind at 1, read; rewrite E2.
  unfold bind at 1, load; rewrite E3.
  unfold bind at 1, py_try, set_script at 1; now rewrite E4.
Qed.

(** X11: when the scaffolding command of line 101 cannot be started,
    [generate_spa] raises that error after its first two lines of output:
    no later step runs and the disk is as it was. *)
Theorem scaffolding_failure_stops_the_run :
  forall (self : SPAGenerator) (w : world) (e : os_error),
    subprocess_run
      [py "yarn"; py "create"; py "vite"; spa_name self;
       py "--template"; py "vue"]
      (app_path self) (w_disk w) = inl e ->
    generate_spa self w =
    Raised (OSError e)
      (printed w [py "Generating spa..."; py "Scafolding vue project..."]).
Proof.
  intros self w e E.
  unfold generate_spa, bind at 1; unfold click_echo at 1, emit at 1.
  unfold bind at 1, initialize_vue_vite_project, bind at 1.
  unfold py_print at 1, emit at 1.
  unfold bind at 1, act at 1; cbn [w_disk w_stdout]; rewrite E.
  unfold printed; now rewrite <- app_assoc.
Qed.

(** X12: [setup_vue_router] makes its directory without looking first
    (line 87).  On a file system where [mkdir] refuses a path that
    exists, as pathlib does, the method raises when src/router is there,
    before any file is created. *)
Theorem router_directory_must_be_new :
  forall (self : SPAGenerator) (w : world),
    (forall p d, path_exists d p = true -> exists e, mkdir p d = inl e) ->
    path_exists (w_disk w) (joinpath (spa_path self) (py "src/router")) = true ->
    exists e : os_error, setup_vue_router self w = Raised (OSError e) w.
Proof.
  intros self w C E; destruct (C _ _ E) as [e He]; exists e.
  unfold setup_vue_router; cbv zeta.
  unfold bind at 1, act at 1; now rewrite He.
Qed.

(** X13: [create_www_directory] looks before it makes the directory
    (lines 209-210).  On a file system where a directory that was made
    exists, a second call after one that returned changes nothing and
    returns as well. *)
Theorem www_directory_is_made_once :
  forall (self : SPAGenerator) (w w1 : world),
    (forall p d d', mkdir p d = inr d' -> path_exists d' p = true) ->
    create_www_directory self w = Returned tt w1 ->
    create_www_directory self w1 = Returned tt w1.
Proof.
  intros self w w1 C; unfold create_www_directory; cbv zeta.
  unfold bind, ask.
  destruct (path_exists (w_disk w)
              (joinpath (app_path self) (app self ++ py "/www"))) eqn:E;
    cbn [negb].
  - unfold ret; intros E1; inversion E1; subst w1; now rewrite E.
  - unfold act.
    destruct (mkdir (joinpath (app_path self) (app self ++ py "/www"))
                (w_disk w)) as [e|d] eqn:Hm; [discriminate|].
    intros E1; inversion E1; subst w1; cbn [w_disk].
    now rewrite (C _ _ _ Hm).
Qed.

(** X14: [add_routing_rule_to_hooks] on the disk.  When hooks.py cannot
    be read the method raises and nothing is written.  When it was read
    as a text without carriage returns, as text mode gives it, the name
    has none either and the method returns, then the text it wrote has
    none, and the record stands first in a list of the variable in it;
    on a disk where hooks.py reads back such a text as it was written,
    hooks.py then holds the patched text of what it held before. *)
Theorem hooks_file_after_the_run :
  forall (self : SPAGenerator) (w : world),
    (forall e : os_error,
       read_text (hooks_py_path self) (w_disk w) = inl e ->
       add_routing_rule_to_hooks self w = Raised (OSError e) w)
    /\
    (forall (hooks : text) (w' : world),
       read_text (hooks_py_path self) (w_disk w) = inr hooks ->
       no_cr hooks = true -> no_cr (spa_name self) = true ->
       (forall (t : text) (d' : disk),
          no_cr t = true ->
          write_text (hooks_py_path self) t (w_disk w) = inr d' ->
          read_text (hooks_py_path self) d' = inr t) ->
       add_routing_rule_to_hooks self w = Returned tt w' ->
       read_text (hooks_py_path self) (w_disk w')
       = inr (updates_hooks hooks (spa_name self))
       /\ no_cr (updates_hooks hooks (spa_name self)) = true
       /\ occurs
            (py "website_route_rules = [" ++ rule (spa_name self) ++ py ",")
            (updates_hooks hooks (spa_name self)) = true).
Proof.
  intros self w; unfold add_routing_rule_to_hooks; cbv zeta.
  unfold bind, read; split.
  - intros e E; now rewrite E.
  - intros hooks w' E Hh Hs C; rewrite E.
    unfold act.
    destruct (write_text (hooks_py_path self)
                (updates_hooks hooks (spa_name self)) (w_disk w))
      as [e|d] eqn:Hw; [discriminate|].
    intros E'; inversion E'; subst w'; cbn [w_disk].
    pose proof (updates_hooks_no_cr hooks (spa_name self) Hh Hs) as Hn.
    split; [exact (C _ _ Hn Hw)|split; [exact Hn|]].
    unfold updates_hooks.
    apply (replace_slot (rule (spa_name self)) (length (rules hooks)));
      [lia|apply rules_slot].
Qed.

End Effects.

Lemma manifest_without_scripts_raises_witness :
  update_package_json bare_billing_in_shop
    (bare_world [(py "../apps/shop/billing/package.json", py "{}")] [])
  = Raised (PyError (KeyError (py "scripts")))
      (bare_world [(py "../apps/shop/billing/package.json", py "{}")] []).
Proof.
  exact (manifest_without_scripts_raises bare_billing_in_shop
           (bare_world [(py "../apps/shop/billing/package.json", py "{}")] [])
           (py "{}") [] eq_refl eq_refl eq_refl eq_refl).
Defined.

Lemma scaffolding_failure_stops_the_run_witness :
  generate_spa bare_billing_in_shop (bare_world [] [])
  = @Raised BareHost unit (@OSError BareHost FileNotFoundError)
      (printed (bare_world [] [])
         [py "Generating spa..."; py "Scafolding vue project..."]).
Proof.
  exact (scaffolding_failure_stops_the_run bare_billing_in_shop
           (bare_world [] []) FileNotFoundError eq_refl).
Defined.

Lemma mem_exists_head (p t : text) (d : list (text * text)) :
  mem_exists ((p, t) :: d) p = true.
Proof.
  unfold mem_exists, mem_lookup; cbn [find fst].
  now rewrite text_eqb_refl.
Qed.

Lemma mem_lookup_store (p t : text) (d : list (text * text)) :
  mem_lookup (mem_store p t d) p = Some t.
Proof.
  unfold mem_lookup, mem_store; cbn [find fst].
  now rewrite text_eqb_refl.
Qed.

(** The in-memory disk reads a file back as it was written. *)
Lemma mem_reads_back (p t : text) (d d' : list (text * text)) :
  @write_text MemHost p t d = inr d' -> @read_text MemHost p d' = inr t.
Proof.
  intros E; inversion E; subst d'.
  change (@read_text MemHost p (mem_store p t d))
    with (match mem_lookup (mem_store p t d) p with
          | Some t' => @inr mem_error text t'
          | None => inl FileNotFoundError
          end).
  now rewrite mem_lookup_store.
Qed.

Lemma router_directory_must_be_new_witness :
  exists e : mem_error,
    setup_vue_router billing_in_shop
      (mem_world [(py "../apps/shop/billing/src/router", [])] [])
    = Raised (OSError e)
        (mem_world [(py "../apps/shop/billing/src/router", [])] []).
Proof.
  apply (router_directory_must_be_new billing_in_shop
           (mem_world [(py "../apps/shop/billing/src/router", [])] [])).
  - intros p d E; exists FileExistsError.
    change (mem_exists d p = true) in E.
    change (mkdir p d)
      with (if mem_exists d p
            then @inl mem_error (list (text * text)) FileExistsError
            else inr ((p, []) :: d)).
    now rewrite E.
  - reflexivity.
Defined.

Lemma www_directory_is_made_once_witness :
  create_www_directory billing_in_shop
    (mem_world [(py "../apps/shop/shop/www", [])] [])
  = Returned tt (mem_world [(py "../apps/shop/shop/www", [])] []).
Proof.
  apply (www_directory_is_made_once billing_in_shop (mem_world [] [])
           (mem_world [(py "../apps/shop/shop/www", [])] [])).
  - intros p d d'.
    change (mkdir p d)
      with (if mem_exists d p
            then @inl mem_error (list (text * text)) FileExistsError
            else inr ((p, []) :: d)).
    destruct (mem_exists d p); [discriminate|].
    intros E; inversion E; apply mem_exists_head.
  - reflexivity.
Defined.

Lemma hooks_file_after_the_run_witness :
  add_routing_rule_to_hooks billing_in_shop (mem_world [] [])
  = Raised (OSError FileNotFoundError) (mem_world [] [])
  /\ @read_text MemHost (hooks_py_path billing_in_shop)
       (w_disk
          (mem_world
             [(py "../apps/shop/shop/hooks.py",
               py "x = 1" ++ [nl; nl]
               ++ py "website_route_rules = [{'from_route': '/billing/<path:app_path>', 'to_route': 'billing'},]")]
             []))
     = inr (updates_hooks (py "x = 1" ++ [nl]) (spa_name billing_in_shop))
  /\ no_cr (updates_hooks (py "x = 1" ++ [nl]) (spa_name billing_in_shop))
     = true
  /\ occurs
       (py "website_route_rules = [" ++ rule (spa_name billing_in_shop)
        ++ py ",")
       (updates_hooks (py "x = 1" ++ [nl]) (spa_name billing_in_shop))
     = true.
Proof.
  split.
  - exact (proj1 (hooks_file_after_the_run billing_in_shop (mem_world [] []))
             FileNotFoundError eq_refl).
  - apply (proj2 (hooks_file_after_the_run billing_in_shop
                    (mem_world
                       [(py "../apps/shop/shop/hooks.py", py "x = 1" ++ [nl])]
                       []))
             (py "x = 1" ++ [nl])
             (mem_world
                [(py "../apps/shop/shop/hooks.py",
                  py "x = 1" ++ [nl; nl]
                  ++ py "website_route_rules = [{'from_route': '/billing/<path:app_path>', 'to_route': 'billing'},]")]
                [])).
    + reflexivity.
    + reflexivity.
    + reflexivity.
    + intros t d' _ E; exact (mem_reads_back _ _ _ _ E).
    + reflexivity.
Defined.

(* ===================================================================== *)
(** * Further properties: a declaration behind a margin *)
(* ===================================================================== *)








(* ===================================================================== *)
(** * Further properties: src/main.js *)
(* ===================================================================== *)

Section MainJs.
Context `{Host} `{Boilerplates}.

(** X17: with src/main.js in place, [link_controller_files] prints its
    progress line only and writes the file anew.  When the boilerplate
    has no carriage return, on a disk where src/main.js reads back such a
    text as it was written, the file then holds the boilerplate, after
    the import of index.css when Tailwind was asked for. *)
Theorem main_js_is_written_anew :
  forall (self : SPAGenerator) (w w' : world),
    no_cr MAIN_JS_BOILERPLATE = true ->
    (forall (t : text) (d' : disk),
       no_cr t = true ->
       write_text (main_js_path self) t (w_disk w) = inr d' ->
       read_text (main_js_path self) d' = inr t) ->
    path_exists (w_disk w) (main_js_path self) = true ->
    link_controller_files self w = Returned tt w' ->
    read_text (main_js_path self) (w_disk w')
    = inr ((if add_tailwindcss self
            then py "import './index.css';" ++ [nl] else [])
           ++ MAIN_JS_BOILERPLATE)
    /\ w_stdout w' = w_stdout w ++ [py "Linking controller files..."].
Proof.
  intros self w w' Hb C E; unfold link_controller_files; cbv zeta.
  unfold bind, py_print, emit, ask; cbn [w_disk w_stdout]; rewrite E.
  unfold act; cbv beta iota; cbn [w_disk w_stdout].
  match goal with
  | |- context [write_text ?p ?t ?d0] =>
      destruct (write_text p t d0) as [e|d] eqn:Hw
  end; [discriminate|].
  intros E'; inversion E'; subst w'; cbn [w_disk w_stdout].
  split; [|reflexivity].
  destruct (add_tailwindcss self).
  - rewrite <- app_assoc; apply C; [|exact Hw].
    unfold no_cr in Hb |- *; rewrite !forallb_app.
    repeat (apply andb_true_intro; split); reflexivity || exact Hb.
  - apply C; [exact Hb|exact Hw].
Qed.

End MainJs.

Lemma main_js_is_written_anew_witness :
  @read_text MemHost (main_js_path billing_in_shop)
    (w_disk
       (mem_world
          [(py "../apps/shop/billing/src/main.js",
            py "import { createApp } from 'vue';")]
          [py "Linking controller files..."]))
  = inr ((if add_tailwindcss billing_in_shop
          then py "import './index.css';" ++ [nl] else [])
         ++ MAIN_JS_BOILERPLATE)
  /\ w_stdout
       (mem_world
          [(py "../apps/shop/billing/src/main.js",
            py "import { createApp } from 'vue';")]
          [py "Linking controller files..."])
     = w_stdout
         (mem_world [(py "../apps/shop/billing/src/main.js", py "old")] [])
       ++ [py "Linking controller files..."].
Proof.
  apply (main_js_is_written_anew billing_in_shop
           (mem_world [(py "../apps/shop/billing/src/main.js", py "old")] [])
           (mem_world
              [(py "../apps/shop/billing/src/main.js",
                py "import { createApp } from 'vue';")]
              [py "Linking controller files..."])).
  - reflexivity.
  - intros t d' _ E; exact (mem_reads_back _ _ _ _ E).
  - reflexivity.
  - reflexivity.
Defined.
